(** * android-tree-sitter: the cancellable parse session and the UTF-16 buffer

  A shallow embedding of
    - [utf16str/UTF16String.h]  (class [UTF16String]), and
    - [ts_parser.cc]            (class [TSParserInternal] and the JNI
                                 entry points of [TSParser.Native]),
  followed by the properties the specification states about them. *)

From Stdlib Require Import ZArith List Lia Bool.
From stdpp Require Import base option list gmap strings.

Local Open Scope Z_scope.

(* ===================================================================== *)
(** * 1. The UTF-16 buffer ([utf16str/UTF16String.h])                      *)
(* ===================================================================== *)

Module TextBuffer.

(** [class UTF16String { private: vector<jbyte> _string; ... }].
    A [jbyte] is a signed 8-bit integer, held in a [Z]. *)
Record UTF16String : Type := mkUTF16String { _string : list Z }.

(** A [jstring] handed over by the host, as its sequence of [jchar]s. *)
Definition jstring : Type := list Z.

(** The spec's buffer errors (section 7). *)
Inductive BufferError : Type := OutOfRange | InvalidRange.

(** A member function mutates [this] and either returns or signals an
    error: the outcome carries both the signal and the buffer as it is
    left behind. *)
Record Outcome (A : Type) : Type :=
  mkOutcome { signal : BufferError + A; after : UTF16String }.
Arguments mkOutcome {A} _ _.
Arguments signal {A} _.
Arguments after {A} _.

Definition done_with {A} (a : A) (s : UTF16String) : Outcome A :=
  mkOutcome (inr a) s.
Definition fail_with {A} (e : BufferError) (s : UTF16String) : Outcome A :=
  mkOutcome (inl e) s.

(** [int vsize(const vector<jbyte> &vc)] (declared in the header). *)
Definition vsize (vc : list Z) : Z := Z.of_nat (List.length vc).

(** [UTF16String::UTF16String()]: the empty buffer. *)
Definition UTF16String_new : UTF16String := mkUTF16String [].

(** Wrap an integer into the range of a [jbyte]. *)
Definition to_jbyte (x : Z) : Z := (x + 128) mod 256 - 128.

(** The two bytes of one [jchar]; low byte first (the order of the
    host; no property below depends on it). *)
Definition jchar_bytes (c : Z) : list Z :=
  [to_jbyte (Z.land c 255); to_jbyte (Z.land (Z.shiftr c 8) 255)].

Definition jstring_bytes (src : jstring) : list Z :=
  flat_map jchar_bytes src.

(** [vector::insert(begin() + pos, bs...)] and
    [vector::erase(begin() + first, begin() + last)]. *)
Definition vinsert (pos : Z) (bs v : list Z) : list Z :=
  firstn (Z.to_nat pos) v ++ bs ++ skipn (Z.to_nat pos) v.
Definition verase (first last : Z) (v : list Z) : list Z :=
  firstn (Z.to_nat first) v ++ skipn (Z.to_nat last) v.

(** Modelled from the spec: the bodies of the member functions of
    [UTF16String] (UTF16String.cpp is not among the sources; only the
    declarations of the header are).  Section 3: the buffer is a
    sequence of 16-bit code units, two bytes each; section 4.1 gives
    the contract of each operation, section 7 says a failed operation
    leaves the buffer as it was. *)
Definition byte_length (s : UTF16String) : Z := vsize (_string s).

(** Modelled from the spec: [UTF16String::length], the number of code
    units held in the byte vector. *)
Definition length (s : UTF16String) : Z := vsize (_string s) / 2.

(** Modelled from the spec: the validity of a char index and of a byte
    index (section 3). *)
Definition valid_char_index (i : Z) (s : UTF16String) : bool :=
  (0 <=? i) && (i <=? length s).
Definition valid_byte_index (b : Z) (s : UTF16String) : bool :=
  (0 <=? b) && (b <=? byte_length s) && Z.even b.

(** Modelled from the spec: [char_at(index)]. *)
Definition char_at (index : Z) (s : UTF16String) : Outcome Z :=
  if (0 <=? index) && (index <? length s) then
    let lo := nth (Z.to_nat (2 * index)) (_string s) 0 in
    let hi := nth (Z.to_nat (2 * index + 1)) (_string s) 0 in
    done_with (Z.lor (Z.shiftl (hi mod 256) 8) (lo mod 256)) s
  else fail_with OutOfRange s.

(** Modelled from the spec: [insert(jchar c, int index)]. *)
Definition insert (c : Z) (index : Z) (s : UTF16String) : Outcome unit :=
  if valid_char_index index s then
    done_with tt (mkUTF16String (vinsert (2 * index) (jchar_bytes c) (_string s)))
  else fail_with OutOfRange s.

(** Modelled from the spec: [insert(env, jstring src, jint index)]. *)
Definition insert_string (src : jstring) (index : Z) (s : UTF16String)
  : Outcome unit :=
  if valid_char_index index s then
    done_with tt (mkUTF16String (vinsert (2 * index) (jstring_bytes src) (_string s)))
  else fail_with OutOfRange s.

(** Modelled from the spec: the three forms of [append], each an
    insertion at [length()]. *)
Definition append (c : Z) (s : UTF16String) : Outcome unit :=
  insert c (length s) s.

Definition append_string (src : jstring) (s : UTF16String) : Outcome unit :=
  insert_string src (length s) s.

Definition append_range (src : jstring) (from len : Z) (s : UTF16String)
  : Outcome unit :=
  if (0 <=? from) && (0 <=? len) && (from + len <=? Z.of_nat (List.length src)) then
    insert_string (firstn (Z.to_nat len) (skipn (Z.to_nat from) src)) (length s) s
  else fail_with OutOfRange s.

(** Modelled from the spec: [delete_chars(env, start, end)]. *)
Definition delete_chars (start end_ : Z) (s : UTF16String) : Outcome unit :=
  if (start <? 0) || (end_ <? start) || (length s <? end_) then
    fail_with InvalidRange s
  else done_with tt (mkUTF16String (verase (2 * start) (2 * end_) (_string s))).

(** Modelled from the spec: [delete_bytes(env, start, end)]. *)
Definition delete_bytes (start end_ : Z) (s : UTF16String) : Outcome unit :=
  if Z.odd start || Z.odd end_ || (start <? 0) || (end_ <? start)
     || (byte_length s <? end_) then
    fail_with InvalidRange s
  else done_with tt (mkUTF16String (verase start end_ (_string s))).

(** Modelled from the spec: [to_cstring()], an independent copy of the
    raw UTF-16 bytes (returned here as the byte sequence itself; the
    array it is copied into is not part of the modelled heap). *)
Definition to_cstring (s : UTF16String) : list Z := _string s.

(** The mutating operations of the buffer, as one type. *)
Inductive mutation : Type :=
| Insert (c : Z) (index : Z)
| InsertString (src : jstring) (index : Z)
| Append (c : Z)
| AppendString (src : jstring)
| AppendRange (src : jstring) (from len : Z)
| DeleteChars (start end_ : Z)
| DeleteBytes (start end_ : Z).

Definition mutate (m : mutation) (s : UTF16String) : Outcome unit :=
  match m with
  | Insert c i => insert c i s
  | InsertString src i => insert_string src i s
  | Append c => append c s
  | AppendString src => append_string src s
  | AppendRange src from len => append_range src from len s
  | DeleteChars a b => delete_chars a b s
  | DeleteBytes a b => delete_bytes a b s
  end.

(** A buffer's history: mutations applied one after the other, failed
    ones included. *)
Definition mutate_all (ms : list mutation) (s : UTF16String) : UTF16String :=
  fold_left (fun b m => after (mutate m b)) ms s.

(** The invariant of section 3, in terms of the byte vector. *)
Definition units_whole (s : UTF16String) : Prop :=
  byte_length s = 2 * length s.

(** The buffer "abc" of the spec's scenarios (section 8). *)
Definition abc : UTF16String := mkUTF16String [97; 0; 98; 0; 99; 0].

End TextBuffer.

(* ===================================================================== *)
(** * 2. The parse session ([ts_parser.cc])                                *)
(* ===================================================================== *)

Module Session.

(** ** 2.1 Memory, the JNI environment and the engine *)

(** Pointers and [jlong] handles are integers; [nullptr] is [0]. *)
Abbreviation nullptr := 0 (only parsing).

(** [TSInputEncoding] of the engine's API. *)
Inductive TSInputEncoding : Type := TSInputEncodingUTF8 | TSInputEncodingUTF16.

(** The engine's parser object ([TSParser], external): the one field
    this code reaches, through [ts_parser_set_cancellation_flag]. *)
Record TSParser : Type := mkTSParser { cancellation_flag_pointer : Z }.

(** [class TSParserInternal], its three private members. *)
Record TSParserInternal : Type := mkTSParserInternal {
  cancellation_flag_mutex : Z;   (* std::mutex *               *)
  cancellation_flag : Z;         (* std::atomic<size_t *> *    *)
  parser : Z                     (* TSParser *                 *)
}.

(** What an address of the native heap holds. *)
Inductive object : Type :=
| Mutex                                (* a std::mutex                       *)
| AtomicPtr (p : Z)                    (* a std::atomic<size_t *> holding p  *)
| Parser (e : TSParser)                (* the engine's parser                *)
| Internal (s : TSParserInternal)      (* a session                          *)
| Flag (v : option Z)                  (* a malloc'ed size_t; None: not yet written *)
| Str (u : TextBuffer.UTF16String).     (* a text buffer                      *)

(** The spec's errors raised by this file (section 7). *)
Inductive Error : Type :=
| NullArgument (name : string)
| InvalidState (msg : string).

(** Stores into the token slot and calls into the engine, in order. *)
Inductive event : Type :=
| SlotStore (this flag : Z)
| EngineSetFlag (self flag : Z)
| EngineParse (self old_tree : Z) (bytes : list Z) (len : Z)
              (encoding : TSInputEncoding).

(** The native heap, the exception pending on the [JNIEnv], and the
    history of slot stores and engine calls. *)
Record World : Type := mkWorld {
  heap : gmap Z object;
  pending : option Error;
  trace : list event
}.

Definition set_heap (f : gmap Z object -> gmap Z object) (w : World) : World :=
  mkWorld (f (heap w)) (pending w) (trace w).
Definition set_pending (e : Error) (w : World) : World :=
  mkWorld (heap w) (Some e) (trace w).
Definition add_event (e : event) (w : World) : World :=
  mkWorld (heap w) (pending w) (trace w ++ [e]).

(** A native call returns, is cut short by a failed precondition, or
    runs into undefined behaviour (a null or dangling dereference). *)
Inductive Result (A : Type) : Type :=
| Return (a : A) (w : World)
| Throw (e : Error) (w : World)
| Undefined.
Arguments Return {A} _ _.
Arguments Throw {A} _ _.
Arguments Undefined {A}.

Definition M (A : Type) : Type := World -> Result A.

Definition ret {A} (a : A) : M A := fun w => Return a w.
Definition bind {A B} (c : M A) (k : A -> M B) : M B :=
  fun w => match c w with
           | Return a w' => k a w'
           | Throw e w' => Throw e w'
           | Undefined => Undefined
           end.
Definition undefined {A} : M A := fun _ => Undefined.

Declare Scope native_scope.
Delimit Scope native_scope with native.
Notation "x <- c ;; k" := (bind c (fun x => k))
  (at level 100, c at next level, right associativity) : native_scope.
Notation "c ;;; k" := (bind c (fun _ => k))
  (at level 100, right associativity) : native_scope.
Local Open Scope native_scope.

(** The allocator ([malloc], [new]): which free address comes next. *)
Class Allocator : Type := { next_address : gmap Z object -> Z }.

(** An allocator never returns null (allocation failure is left out)
    and never an address in use. *)
Definition fresh_allocator `{Allocator} : Prop :=
  forall h : gmap Z object, next_address h <> 0 /\ h !! next_address h = None.

(** The engine's [ts_parser_parse_string_encoding] (external, opaque):
    the tree handle it returns, or [0].  It may look at the heap, where
    its parser object and the installed flag live; it leaves the objects
    modelled here as they are. *)
Class Engine : Type := {
  engine_parse : gmap Z object -> Z -> Z -> list Z -> Z -> TSInputEncoding -> Z
}.

Section Code.
Context `{Allocator} `{Engine}.

(** *** Memory primitives *)

Definition deref (p : Z) : M object :=
  fun w => if p =? 0 then Undefined
           else match heap w !! p with
                | Some o => Return o w
                | None => Undefined
                end.

Definition store (p : Z) (o : object) : M unit :=
  fun w => Return tt (set_heap (<[p:=o]>) w).

Definition release (p : Z) : M unit :=
  fun w => Return tt (set_heap (delete p) w).

Definition new (o : object) : M Z :=
  fun w => let a := next_address (heap w) in
           Return a (set_heap (<[a:=o]>) w).

Definition emit (e : event) : M unit :=
  fun w => Return tt (add_event e w).

Definition load_internal (this : Z) : M TSParserInternal :=
  o <- deref this ;;
  match o with Internal s => ret s | _ => undefined end.

Definition load_string (p : Z) : M TextBuffer.UTF16String :=
  o <- deref p ;;
  match o with Str u => ret u | _ => undefined end.

(** [malloc(sizeof(int))]: a cell whose content is not yet written
    (the size of the block is not modelled). *)
Definition malloc : M Z := new (Flag None).

(** [free(p)]; [free(nullptr)] does nothing. *)
Definition free (p : Z) : M unit :=
  if p =? 0 then ret tt
  else o <- deref p ;;
       match o with Flag _ => release p | _ => undefined end.

(** [*flag = v]. *)
Definition write_flag (flag v : Z) : M unit :=
  o <- deref flag ;;
  match o with Flag _ => store flag (Flag (Some v)) | _ => undefined end.

(** [delete p] of a C++ object; [delete nullptr] does nothing. *)
Definition delete_object (p : Z) : M unit :=
  if p =? 0 then ret tt else (deref p ;;; release p).

(** [std::lock_guard<std::mutex>] on the mutex [m]: taken and dropped within
    the member function; one thread is modelled. *)
Definition lock_guard (m : Z) : M unit :=
  o <- deref m ;;
  match o with Mutex => ret tt | _ => undefined end.

(** [std::atomic<size_t *>::load] and [::store]. *)
Definition atomic_load (a : Z) : M Z :=
  o <- deref a ;;
  match o with AtomicPtr p => ret p | _ => undefined end.

Definition atomic_store (a p : Z) : M unit :=
  o <- deref a ;;
  match o with AtomicPtr _ => store a (AtomicPtr p) | _ => undefined end.

(** *** The engine's API (tree-sitter, external; spec section 6) *)

Definition ts_parser_new : M Z := new (Parser (mkTSParser nullptr)).

Definition ts_parser_delete (self : Z) : M unit :=
  if self =? 0 then ret tt
  else o <- deref self ;;
       match o with Parser _ => release self | _ => undefined end.

Definition ts_parser_set_cancellation_flag (self flag : Z) : M unit :=
  o <- deref self ;;
  match o with
  | Parser _ => store self (Parser (mkTSParser flag)) ;;;
                emit (EngineSetFlag self flag)
  | _ => undefined
  end.

Definition ts_parser_parse_string_encoding
    (self old_tree : Z) (string : list Z) (length : Z)
    (encoding : TSInputEncoding) : M Z :=
  o <- deref self ;;
  match o with
  | Parser _ =>
      emit (EngineParse self old_tree string length encoding) ;;;
      (fun w => Return (engine_parse (heap w) self old_tree string length encoding) w)
  | _ => undefined
  end.

(** *** Helpers of [utils/] *)

(** Modelled from the spec: [throw_illegal_state] of
    utils/ts_exceptions.h, which is not among the sources.  It reports
    [InvalidState]; every use in ts_parser.cc is followed by a
    [return], so it comes back to its caller and leaves the error
    pending on the JNI environment. *)
Definition throw_illegal_state (msg : string) : M unit :=
  fun w => Return tt (set_pending (InvalidState msg) w).

(** Modelled from the spec: [req_nnp] of utils/ts_preconditions.h,
    which is not among the sources.  Section 6: a handle is validated
    non-null before use, and a null handle where one is required
    fails with [NullArgument]. *)
Definition req_nnp (p : Z) (name : string) : M unit :=
  fun w => if p =? 0 then Throw (NullArgument name) w else Return tt w.

(** [UTF16String *as_str(jlong pointer)]: the handle, seen as a
    pointer. *)
Definition as_str (pointer : Z) : Z := pointer.

(** ** 2.2 [class TSParserInternal] *)

Definition check_destroyed (this : Z) : M bool :=
  s <- load_internal this ;;
  if (cancellation_flag_mutex s =? 0) || (cancellation_flag s =? 0)
     || (parser s =? 0)
  then throw_illegal_state "TSParserInternal has already been destroyed" ;;;
       ret true
  else ret false.

Definition getParser (this : Z) : M Z :=
  d <- check_destroyed this ;;
  if d : bool then ret nullptr
  else s <- load_internal this ;; ret (parser s).

Definition get_cancellation_flag (this : Z) : M Z :=
  d <- check_destroyed this ;;
  if d : bool then ret nullptr
  else s <- load_internal this ;;
       lock_guard (cancellation_flag_mutex s) ;;;
       atomic_load (cancellation_flag s).

Definition set_cancellation_flag (this flag : Z) : M unit :=
  d <- check_destroyed this ;;
  if d : bool then ret tt
  else s <- load_internal this ;;
       lock_guard (cancellation_flag_mutex s) ;;;
       atomic_store (cancellation_flag s) flag ;;;
       emit (SlotStore this flag).

Definition begin_round (this : Z) : M bool :=
  flag <- get_cancellation_flag this ;;
  if negb (flag =? 0) then
    throw_illegal_state
      "Parser is already parsing another syntax tree! You must cancel the current parse first!" ;;;
    ret false
  else
    flag <- malloc ;;
    set_cancellation_flag this flag ;;;
    write_flag flag 0 ;;;
    p <- getParser this ;;
    ts_parser_set_cancellation_flag p flag ;;;
    ret true.

Definition end_round (this : Z) : M unit :=
  flag <- get_cancellation_flag this ;;
  free flag ;;;
  set_cancellation_flag this nullptr ;;;
  p <- getParser this ;;
  ts_parser_set_cancellation_flag p nullptr.

(** The constructor, run on the freshly allocated object. *)
Definition TSParserInternal_ctor (this : Z) : M unit :=
  m <- new Mutex ;;
  a <- new (AtomicPtr nullptr) ;;
  p <- ts_parser_new ;;
  store this (Internal (mkTSParserInternal m a p)).

(** The destructor. *)
Definition TSParserInternal_dtor (this : Z) : M unit :=
  s <- load_internal this ;;
  delete_object (cancellation_flag_mutex s) ;;;
  delete_object (cancellation_flag s) ;;;
  ts_parser_delete (parser s) ;;;
  store this (Internal (mkTSParserInternal nullptr nullptr nullptr)).

(** ** 2.3 The JNI entry points of [TSParser.Native]

    Embedded: [newParser], [delete], [parse], [requestCancellation].  The
    entry points that only forward to the engine ([setLanguage],
    [getLanguage], [reset], [setTimeout], [getTimeout],
    [setIncludedRanges], [getIncludedRanges]) are not: each starts with
    [req_nnp(env, parser)], as [delete] and [parse] do.  [req_nnp] is
    called without a name for the session handle; the name is then the
    empty string here.  Logging ([LOGD]) is left out. *)

Definition Java_com_itsaky_androidide_treesitter_TSParser_00024Native_newParser
  : M Z :=
  this <- new (Internal (mkTSParserInternal nullptr nullptr nullptr)) ;;
  TSParserInternal_ctor this ;;;
  ret this.

Definition Java_com_itsaky_androidide_treesitter_TSParser_00024Native_delete
    (parser_ptr : Z) : M unit :=
  req_nnp parser_ptr "" ;;;
  let parser := parser_ptr in
  TSParserInternal_dtor parser ;;;
  release parser.

Definition Java_com_itsaky_androidide_treesitter_TSParser_00024Native_parse
    (parser tree_pointer str_pointer : Z) : M Z :=
  req_nnp parser "" ;;;
  req_nnp str_pointer "string" ;;;
  let ts_parser_internal := parser in
  ts_parser <- getParser ts_parser_internal ;;
  let old_tree := if tree_pointer =? 0 then nullptr else tree_pointer in
  let source := as_str str_pointer in
  begin_round ts_parser_internal ;;;
  u <- load_string source ;;
  tree <- ts_parser_parse_string_encoding ts_parser old_tree
            (TextBuffer.to_cstring u) (TextBuffer.byte_length u)
            TSInputEncodingUTF16 ;;
  end_round ts_parser_internal ;;;
  ret tree.

Definition Java_com_itsaky_androidide_treesitter_TSParser_00024Native_requestCancellation
    (parser : Z) : M bool :=
  let parserInternal := parser in
  flag <- get_cancellation_flag parserInternal ;;
  if flag =? 0 then ret false
  else write_flag flag 1 ;;; ret true.

End Code.

(** Short names for the entry points. *)
Abbreviation Native_newParser :=
  Java_com_itsaky_androidide_treesitter_TSParser_00024Native_newParser.
Abbreviation Native_delete :=
  Java_com_itsaky_androidide_treesitter_TSParser_00024Native_delete.
Abbreviation Native_parse :=
  Java_com_itsaky_androidide_treesitter_TSParser_00024Native_parse.
Abbreviation Native_requestCancellation :=
  Java_com_itsaky_androidide_treesitter_TSParser_00024Native_requestCancellation.

(** ** 2.4 The states of a session, and the worlds a round goes through *)

(** A session object that has not been destroyed: its three members point
    to a mutex, to the atomic slot (holding [tok]) and to the engine's
    parser (whose cancellation flag pointer is that of [e]). *)
Record live (w : World) (this : Z) (s : TSParserInternal) (tok : Z)
    (e : TSParser) : Prop := mkLive {
  live_this : this <> 0;
  live_obj : heap w !! this = Some (Internal s);
  live_mutex_nn : cancellation_flag_mutex s <> 0;
  live_mutex : heap w !! cancellation_flag_mutex s = Some Mutex;
  live_slot_nn : cancellation_flag s <> 0;
  live_slot : heap w !! cancellation_flag s = Some (AtomicPtr tok);
  live_parser_nn : parser s <> 0;
  live_parser : heap w !! parser s = Some (Parser e)
}.

(** [IDLE]: no token in the slot, none on the engine. *)
Definition idle (w : World) (this : Z) (s : TSParserInternal) : Prop :=
  live w this s 0 (mkTSParser 0).

(** [PARSING]: the token [tok] is in the slot and on the engine, and its
    storage holds [v]. *)
Definition parsing (w : World) (this : Z) (s : TSParserInternal) (tok : Z)
    (v : option Z) : Prop :=
  tok <> 0 /\ live w this s tok (mkTSParser tok) /\ heap w !! tok = Some (Flag v).

(** The two states of a session that has been created and not destroyed. *)
Definition well_formed (w : World) (this : Z) (s : TSParserInternal) : Prop :=
  idle w this s \/ exists (tok : Z) (v : option Z), parsing w this s tok v.

(** A call that reports [InvalidState]: it is cut short by it, or comes
    back with it pending. *)
Definition reports_invalid_state {A} (r : Result A) : Prop :=
  match r with
  | Return _ w' => exists msg, pending w' = Some (InvalidState msg)
  | Throw (InvalidState _) _ => True
  | _ => False
  end.

(** The message of the guard of [begin_round]. *)
Definition already_parsing : string :=
  "Parser is already parsing another syntax tree! You must cancel the current parse first!".

(** The world [begin_round] leaves behind when it installs the token
    allocated at [a]. *)
Definition begun (w : World) (this : Z) (s : TSParserInternal) (a : Z) : World :=
  mkWorld
    (<[parser s := Parser (mkTSParser a)]>
       (<[cancellation_flag s := AtomicPtr a]>
          (<[a := Flag (Some 0)]> (heap w))))
    (pending w)
    (trace w ++ [SlotStore this a; EngineSetFlag (parser s) a]).

(** The world [end_round] leaves behind when the slot holds [tok]. *)
Definition ended (w : World) (this : Z) (s : TSParserInternal) (tok : Z) : World :=
  mkWorld
    (<[parser s := Parser (mkTSParser 0)]>
       (<[cancellation_flag s := AtomicPtr 0]>
          (if tok =? 0 then heap w else delete tok (heap w))))
    (pending w)
    (trace w ++ [SlotStore this 0; EngineSetFlag (parser s) 0]).

(** The call [parse] makes into the engine for the buffer [u]. *)
Definition parse_call (s : TSParserInternal) (tree_pointer : Z)
    (u : TextBuffer.UTF16String) : event :=
  EngineParse (parser s) tree_pointer (TextBuffer.to_cstring u)
    (TextBuffer.byte_length u) TSInputEncodingUTF16.

(** What the engine answers to that call on the heap [h]. *)
Definition parse_answer `{Engine} (h : gmap Z object) (s : TSParserInternal)
    (tree_pointer : Z) (u : TextBuffer.UTF16String) : Z :=
  engine_parse h (parser s) tree_pointer (TextBuffer.to_cstring u)
    (TextBuffer.byte_length u) TSInputEncodingUTF16.

(** [n + 1] requests in a row. *)
Fixpoint request_repeatedly (n : nat) (this : Z) : M bool :=
  match n with
  | O => Native_requestCancellation this
  | S n => Native_requestCancellation this ;;; request_repeatedly n this
  end.

(** ** 2.5 One allocator, one engine, two worlds *)

(** A bump allocator: one past the largest address in use. *)
Definition largest_address (h : gmap Z object) : Z :=
  map_fold (fun k _ m => Z.max k m) 0 h.

Definition bump_allocator : Allocator :=
  {| next_address := fun h => 1 + largest_address h |}.

(** An engine that polls the installed flag once, as it starts: it gives
    up (no tree) when cancellation is already requested, and otherwise
    returns the tree handle [4096]. *)
Definition polling_engine : Engine :=
  {| engine_parse := fun h self _ _ _ _ =>
       match h !! self with
       | Some (Parser e) =>
           match h !! cancellation_flag_pointer e with
           | Some (Flag (Some 0)) => 4096
           | _ => 0
           end
       | _ => 0
       end |}.

(** The session at address 1 as [newParser] builds it on an empty heap
    with the bump allocator, and the text buffer "abc" at address 5. *)
Definition session1 : TSParserInternal := mkTSParserInternal 2 3 4.

Definition idle_world : World :=
  mkWorld
    (<[1 := Internal session1]> (<[2 := Mutex]> (<[3 := AtomicPtr 0]>
       (<[4 := Parser (mkTSParser 0)]> (<[5 := Str TextBuffer.abc]> ∅)))))
    None [].

(** The same session in the middle of a round, its token at address 6. *)
Definition parsing_world : World :=
  mkWorld
    (<[1 := Internal session1]> (<[2 := Mutex]> (<[3 := AtomicPtr 6]>
       (<[4 := Parser (mkTSParser 6)]> (<[5 := Str TextBuffer.abc]>
          (<[6 := Flag (Some 0)]> ∅))))))
    None [].

(** ** 2.6 Destruction, sequences of calls, a second session *)


(** A session object on which the destructor has run and whose memory
    still holds what the destructor left: some member is null. *)
Definition destroyed (w : World) (this : Z) (s : TSParserInternal) : Prop :=
  this <> 0 /\ heap w !! this = Some (Internal s)
  /\ (cancellation_flag_mutex s = 0 \/ cancellation_flag s = 0 \/ parser s = 0).

(** The world [delete] leaves behind: the session object and its three
    members are released. *)
Definition deleted (w : World) (this : Z) (s : TSParserInternal) : World :=
  mkWorld
    (delete this (delete (parser s) (delete (cancellation_flag s)
       (delete (cancellation_flag_mutex s) (heap w)))))
    (pending w) (trace w).

(** The calls a holder of a session handle can make on it between its
    creation and its destruction. *)
Inductive call : Type :=
| CallBeginRound
| CallEndRound
| CallRequestCancellation
| CallParse (tree_pointer str_pointer : Z).

Section Calls.
Context `{Allocator} `{Engine}.

Definition run_call (this : Z) (c : call) : M unit :=
  match c with
  | CallBeginRound => begin_round this ;;; ret tt
  | CallEndRound => end_round this
  | CallRequestCancellation => Native_requestCancellation this ;;; ret tt
  | CallParse tree_pointer str_pointer =>
      Native_parse this tree_pointer str_pointer ;;; ret tt
  end.

Fixpoint run_calls (this : Z) (cs : list call) : M unit :=
  match cs with
  | [] => ret tt
  | c :: cs => run_call this c ;;; run_calls this cs
  end.


End Calls.

(** The buffer handles of a list of calls all point to text buffers. *)
Definition buffers_valid (w : World) (cs : list call) : Prop :=
  forall tree_pointer str_pointer : Z,
    In (CallParse tree_pointer str_pointer) cs ->
    str_pointer <> 0 /\ exists u, heap w !! str_pointer = Some (Str u).

(** A second session, at address 7, beside the one of [idle_world] and
    [parsing_world]; its round has its token at address 11. *)
Definition session7 : TSParserInternal := mkTSParserInternal 8 9 10.

Definition two_sessions_world : World :=
  mkWorld
    (<[7 := Internal session7]> (<[8 := Mutex]> (<[9 := AtomicPtr 11]>
       (<[10 := Parser (mkTSParser 11)]> (<[11 := Flag (Some 1)]>
          (heap parsing_world))))))
    None [].

(** The world before anything is allocated. *)
Definition empty_world : World := mkWorld ∅ None [].

(** A session in a round, cancelled, parsed on, ended and parsed on
    again. *)
Definition some_calls : list call :=
  [CallBeginRound; CallRequestCancellation; CallParse 0 5;
   CallEndRound; CallParse 4096 5].

(** The session at address 1 after its destructor has run, its memory
    not yet released. *)
Definition destroyed_world : World :=
  mkWorld
    (<[1 := Internal (mkTSParserInternal 0 0 0)]>
       (<[5 := Str TextBuffer.abc]> ∅))
    None [].

End Session.


(* ===================================================================== *)
(** * 3. Properties of the UTF-16 buffer                                   *)
(* ===================================================================== *)

Section TextBufferFacts.

Import TextBuffer.

Lemma units_whole_even (s : UTF16String) :
  units_whole s <-> Z.even (byte_length s) = true.
Proof.
  unfold units_whole, TextBuffer.length, byte_length.
  set (n := vsize (_string s)).
  rewrite Z.even_spec. split.
  - intros E. exists (n / 2). lia.
  - intros [k E]. rewrite E.
    replace (2 * k) with (k * 2) by lia.
    rewrite Z.div_mul; lia.
Qed.

Lemma vsize_app (a b : list Z) : vsize (a ++ b) = vsize a + vsize b.
Proof. unfold vsize. rewrite length_app. lia. Qed.

Lemma vsize_nonneg (v : list Z) : 0 <= vsize v.
Proof. unfold vsize. lia. Qed.

Lemma vsize_vinsert (pos : Z) (bs v : list Z) :
  vsize (vinsert pos bs v) = vsize v + vsize bs.
Proof.
  unfold vinsert. rewrite !vsize_app.
  rewrite <- (firstn_skipn (Z.to_nat pos) v) at 3.
  rewrite vsize_app. lia.
Qed.

Lemma vsize_verase (first last : Z) (v : list Z) :
  0 <= first <= last -> last <= vsize v ->
  vsize (verase first last v) = vsize v - (last - first).
Proof.
  intros Hfl Hl. unfold verase, vsize in *.
  rewrite length_app, length_firstn, length_skipn. lia.
Qed.

Lemma vsize_jchar_bytes (c : Z) : vsize (jchar_bytes c) = 2.
Proof. reflexivity. Qed.

Lemma vsize_jstring_bytes (src : jstring) :
  vsize (jstring_bytes src) = 2 * Z.of_nat (List.length src).
Proof.
  unfold jstring_bytes. induction src as [|c src IH]; [reflexivity|].
  cbn [flat_map]. rewrite vsize_app, IH, vsize_jchar_bytes.
  cbn [List.length]. lia.
Qed.

Lemma even_plus_even (a b : Z) :
  Z.even a = true -> Z.even b = true -> Z.even (a + b) = true.
Proof. intros Ha Hb. rewrite Z.even_add, Ha, Hb. reflexivity. Qed.

Lemma even_minus_even (a b : Z) :
  Z.even a = true -> Z.even b = true -> Z.even (a - b) = true.
Proof. intros Ha Hb. rewrite Z.even_sub, Ha, Hb. reflexivity. Qed.

Lemma even_double (a : Z) : Z.even (2 * a) = true.
Proof. rewrite Z.even_mul. reflexivity. Qed.

Lemma not_odd_even (a : Z) : Z.odd a = false -> Z.even a = true.
Proof. rewrite <- Z.negb_even. destruct (Z.even a); [reflexivity|discriminate]. Qed.

(** Each operation taken alone keeps the code units whole. *)

Lemma insert_units_whole c i s :
  units_whole s -> units_whole (after (TextBuffer.insert c i s)).
Proof.
  rewrite !units_whole_even. intros E. unfold TextBuffer.insert.
  destruct (valid_char_index i s); cbn; [|exact E].
  unfold byte_length in *; cbn. rewrite vsize_vinsert, vsize_jchar_bytes.
  apply even_plus_even; [exact E|reflexivity].
Qed.

Lemma insert_string_units_whole src i s :
  units_whole s -> units_whole (after (insert_string src i s)).
Proof.
  rewrite !units_whole_even. intros E. unfold insert_string.
  destruct (valid_char_index i s); cbn; [|exact E].
  unfold byte_length in *; cbn. rewrite vsize_vinsert, vsize_jstring_bytes.
  apply even_plus_even; [exact E|apply even_double].
Qed.

Lemma append_range_units_whole src from len s :
  units_whole s -> units_whole (after (append_range src from len s)).
Proof.
  intros E. unfold append_range.
  destruct (_ && _); [|exact E].
  apply insert_string_units_whole, E.
Qed.

Lemma delete_chars_units_whole a b s :
  units_whole s -> units_whole (after (delete_chars a b s)).
Proof.
  intros E. unfold delete_chars.
  destruct (_ || _) eqn:G; [exact E|]. cbn.
  apply orb_false_elim in G as [G G3]. apply orb_false_elim in G as [G1 G2].
  apply Z.ltb_ge in G1, G2, G3.
  pose proof E as E'. unfold units_whole in E'.
  apply units_whole_even in E. apply units_whole_even.
  unfold byte_length in *; cbn. rewrite vsize_verase by lia.
  replace (2 * b - 2 * a) with (2 * (b - a)) by lia.
  apply even_minus_even; [exact E|apply even_double].
Qed.

Lemma delete_bytes_units_whole a b s :
  units_whole s -> units_whole (after (delete_bytes a b s)).
Proof.
  intros E. unfold delete_bytes.
  destruct (_ || _) eqn:G; [exact E|]. cbn.
  repeat (apply orb_false_elim in G as [G ?]).
  repeat match goal with
         | H : (_ <? _) = false |- _ => apply Z.ltb_ge in H
         end.
  apply units_whole_even in E. apply units_whole_even.
  unfold byte_length in *; cbn. rewrite vsize_verase by lia.
  apply even_minus_even; [exact E|].
  apply even_minus_even; apply not_odd_even; assumption.
Qed.

Lemma mutate_units_whole m s :
  units_whole s -> units_whole (after (mutate m s)).
Proof.
  intros E. destruct m; cbn [mutate].
  - apply insert_units_whole, E.
  - apply insert_string_units_whole, E.
  - apply insert_units_whole, E.
  - apply insert_string_units_whole, E.
  - apply append_range_units_whole, E.
  - apply delete_chars_units_whole, E.
  - apply delete_bytes_units_whole, E.
Qed.

Lemma mutate_all_units_whole ms s :
  units_whole s -> units_whole (mutate_all ms s).
Proof.
  revert s. induction ms as [|m ms IH]; intros s E; [exact E|].
  cbn. apply IH, mutate_units_whole, E.
Qed.

(** C8.  [byte_length() == 2 * length()] holds for the buffer as it is
    created, and every mutation (insertion of a code unit or of a string,
    the three forms of append, [delete_chars], [delete_bytes]) applied to a
    buffer for which it holds yields a buffer for which it holds, whether
    the mutation succeeds or fails. *)
Theorem byte_length_is_twice_length :
  byte_length UTF16String_new = 2 * TextBuffer.length UTF16String_new
  /\ forall (m : mutation) (s : UTF16String),
       byte_length s = 2 * TextBuffer.length s ->
       byte_length (after (mutate m s))
       = 2 * TextBuffer.length (after (mutate m s)).
Proof.
  split; [reflexivity|].
  intros m s E. exact (mutate_units_whole m s E).
Qed.

(** The scenario of section 8: inserting 'X' at index 1 of "abc" gives
    "aXbc", of byte length 8. *)
Lemma byte_length_is_twice_length_witness :
  byte_length abc = 2 * TextBuffer.length abc
  /\ after (mutate (Insert 88 1) abc) = mkUTF16String [97; 0; 88; 0; 98; 0; 99; 0]
  /\ byte_length (after (mutate (Insert 88 1) abc))
     = 2 * TextBuffer.length (after (mutate (Insert 88 1) abc)).
Proof.
  split; [reflexivity|]. split; [reflexivity|].
  apply (proj2 byte_length_is_twice_length (Insert 88 1) abc).
  reflexivity.
Defined.

(** The code unit read back at index 1 is the one inserted. *)
Example char_at_inserted :
  signal (char_at 1 (after (TextBuffer.insert 88 1 abc))) = inr 88.
Proof. reflexivity. Qed.

(** Every buffer reached from the empty one by any history of mutations
    satisfies the invariant. *)
Corollary reachable_units_whole (ms : list mutation) :
  units_whole (mutate_all ms UTF16String_new).
Proof. apply mutate_all_units_whole. reflexivity. Qed.

(** C9.  [delete_bytes(start, end)] fails with [InvalidRange] whenever
    [start] or [end] is odd, or [start > end], or [end > byte_length()],
    and the buffer it leaves behind is the buffer it was given. *)
Theorem delete_bytes_invalid_range (start end_ : Z) (s : UTF16String) :
  Z.odd start = true \/ Z.odd end_ = true \/ start > end_ \/ end_ > byte_length s ->
  signal (delete_bytes start end_ s) = inl InvalidRange
  /\ after (delete_bytes start end_ s) = s.
Proof.
  intros Hbad. unfold delete_bytes.
  assert (G : Z.odd start || Z.odd end_ || (start <? 0) || (end_ <? start)
              || (byte_length s <? end_) = true).
  { destruct Hbad as [Ho|[Ho|[Hgt|Hgt]]].
    - rewrite Ho. reflexivity.
    - rewrite Ho, orb_true_r. reflexivity.
    - apply Z.gt_lt, Z.ltb_lt in Hgt. rewrite Hgt, !orb_true_r. reflexivity.
    - apply Z.gt_lt, Z.ltb_lt in Hgt. rewrite Hgt, !orb_true_r. reflexivity. }
  rewrite G. split; reflexivity.
Qed.

(** An odd start offset on "abc": the call fails and "abc" is intact. *)
Lemma delete_bytes_invalid_range_witness :
  signal (delete_bytes 1 4 abc) = inl InvalidRange
  /\ after (delete_bytes 1 4 abc) = abc.
Proof.
  apply (delete_bytes_invalid_range 1 4 abc).
  left. reflexivity.
Defined.

(** Failure never changes the buffer, whatever the reason. *)
Lemma delete_bytes_all_or_nothing (start end_ : Z) (s : UTF16String) (e : BufferError) :
  signal (delete_bytes start end_ s) = inl e ->
  e = InvalidRange /\ after (delete_bytes start end_ s) = s.
Proof.
  unfold delete_bytes. destruct (_ || _); cbn; [|discriminate].
  intros [= <-]. split; reflexivity.
Qed.

(** With even, ordered, in-range offsets the bytes in between go. *)
Lemma delete_bytes_valid (start end_ : Z) (s : UTF16String) :
  valid_byte_index start s = true -> valid_byte_index end_ s = true ->
  start <= end_ ->
  signal (delete_bytes start end_ s) = inr tt
  /\ byte_length (after (delete_bytes start end_ s))
     = byte_length s - (end_ - start).
Proof.
  unfold valid_byte_index. intros Hs He Hle.
  apply andb_prop in Hs as [Hs Hs3]. apply andb_prop in Hs as [Hs1 Hs2].
  apply andb_prop in He as [He He3]. apply andb_prop in He as [He1 He2].
  apply Z.leb_le in Hs1, Hs2, He1, He2.
  unfold delete_bytes.
  rewrite <- Z.negb_even, Hs3, <- Z.negb_even, He3. cbn [negb orb].
  destruct (start <? 0) eqn:G1; [apply Z.ltb_lt in G1; lia|].
  destruct (end_ <? start) eqn:G2; [apply Z.ltb_lt in G2; lia|].
  destruct (byte_length s <? end_) eqn:G3; [apply Z.ltb_lt in G3; lia|].
  cbn. split; [reflexivity|].
  unfold byte_length in *. cbn. apply vsize_verase; lia.
Qed.

End TextBufferFacts.


(* ===================================================================== *)
(** * 4. Properties of the parse session                                   *)
(* ===================================================================== *)

Section SessionFacts.

Import Session.
Local Open Scope native_scope.

(** ** 4.1 Running the primitives *)

Lemma bind_Return {A B} (c : M A) (k : A -> M B) (w w' : World) (a : A) :
  c w = Return a w' -> bind c k w = k a w'.
Proof. intros E. unfold bind. rewrite E. reflexivity. Qed.

Lemma deref_Return (w : World) (p : Z) (o : object) :
  p <> 0 -> heap w !! p = Some o -> deref p w = Return o w.
Proof.
  intros Hp Ho. unfold deref.
  destruct (p =? 0) eqn:E; [apply Z.eqb_eq in E; contradiction|].
  rewrite Ho. reflexivity.
Qed.

Lemma deref_null (w : World) : deref 0 w = Undefined.
Proof. reflexivity. Qed.

(** One step of a sequence of calls: the first call is run with the
    lemma that [tac] applies, the rest is left to go on with. *)
Tactic Notation "run" tactic3(tac) :=
  erewrite bind_Return by tac; cbv beta iota.

Section Live.

Variables (w : World) (this : Z) (s : TSParserInternal) (tok : Z) (e : TSParser).
Hypothesis L : live w this s tok e.

Lemma load_internal_live : load_internal this w = Return s w.
Proof.
  destruct L. unfold load_internal.
  run (apply deref_Return; eassumption).
  reflexivity.
Qed.

Lemma check_destroyed_live : check_destroyed this w = Return false w.
Proof.
  unfold check_destroyed. run (apply load_internal_live).
  destruct L.
  repeat match goal with
         | Hne : ?x <> 0 |- context [?x =? 0] =>
             rewrite (proj2 (Z.eqb_neq x 0) Hne)
         end.
  reflexivity.
Qed.

Lemma getParser_live : getParser this w = Return (parser s) w.
Proof.
  unfold getParser. run (apply check_destroyed_live).
  run (apply load_internal_live). reflexivity.
Qed.

Lemma lock_guard_live : lock_guard (cancellation_flag_mutex s) w = Return tt w.
Proof.
  destruct L. unfold lock_guard.
  run (apply deref_Return; eassumption).
  reflexivity.
Qed.

Lemma get_cancellation_flag_live : get_cancellation_flag this w = Return tok w.
Proof.
  unfold get_cancellation_flag.
  run (apply check_destroyed_live).
  run (apply load_internal_live).
  run (apply lock_guard_live).
  destruct L. unfold atomic_load.
  run (apply deref_Return; eassumption).
  reflexivity.
Qed.

Lemma atomic_store_live (p : Z) :
  atomic_store (cancellation_flag s) p w
  = Return tt (set_heap (<[cancellation_flag s := AtomicPtr p]>) w).
Proof.
  destruct L. unfold atomic_store.
  run (apply deref_Return; eassumption).
  reflexivity.
Qed.

Lemma set_cancellation_flag_live (p : Z) :
  set_cancellation_flag this p w
  = Return tt (add_event (SlotStore this p)
                 (set_heap (<[cancellation_flag s := AtomicPtr p]>) w)).
Proof.
  unfold set_cancellation_flag.
  run (apply check_destroyed_live).
  run (apply load_internal_live).
  run (apply lock_guard_live).
  run (apply atomic_store_live).
  reflexivity.
Qed.

Lemma ts_parser_set_cancellation_flag_live (p : Z) :
  ts_parser_set_cancellation_flag (parser s) p w
  = Return tt (add_event (EngineSetFlag (parser s) p)
                 (set_heap (<[parser s := Parser (mkTSParser p)]>) w)).
Proof.
  destruct L. unfold ts_parser_set_cancellation_flag.
  run (apply deref_Return; eassumption).
  reflexivity.
Qed.

(** The members of a live session are pairwise distinct objects. *)
Lemma live_distinct :
  this <> cancellation_flag_mutex s /\ this <> cancellation_flag s
  /\ this <> parser s /\ cancellation_flag_mutex s <> cancellation_flag s
  /\ cancellation_flag_mutex s <> parser s /\ cancellation_flag s <> parser s.
Proof.
  destruct L. repeat split; intros E; rewrite E in *; congruence.
Qed.

End Live.

(** Liveness only looks at the heap. *)
Lemma live_heap (w w' : World) this s tok e :
  heap w' = heap w -> live w this s tok e -> live w' this s tok e.
Proof. intros E []. split; rewrite ?E; assumption. Qed.

(** Storing a pointer into the slot of a live session. *)
Lemma live_slot_store (w : World) this s tok e (p : Z) :
  live w this s tok e ->
  live (set_heap (<[cancellation_flag s := AtomicPtr p]>) w) this s p e.
Proof.
  intros L. destruct (live_distinct _ _ _ _ _ L) as (D1 & D2 & D3 & D4 & D5 & D6).
  destruct L. split; cbn; try assumption.
  - rewrite lookup_insert_ne by congruence. assumption.
  - rewrite lookup_insert_ne by congruence. assumption.
  - apply lookup_insert_eq.
  - rewrite lookup_insert_ne by congruence. assumption.
Qed.

(** Storing a flag pointer into the engine of a live session. *)
Lemma live_engine_store (w : World) this s tok e (p : Z) :
  live w this s tok e ->
  live (set_heap (<[parser s := Parser (mkTSParser p)]>) w) this s tok (mkTSParser p).
Proof.
  intros L. destruct (live_distinct _ _ _ _ _ L) as (D1 & D2 & D3 & D4 & D5 & D6).
  destruct L. split; cbn; try assumption.
  - rewrite lookup_insert_ne by congruence. assumption.
  - rewrite lookup_insert_ne by congruence. assumption.
  - rewrite lookup_insert_ne by congruence. assumption.
  - apply lookup_insert_eq.
Qed.

(** Allocating, writing or releasing a flag cell leaves a live session
    live, provided the cell is none of its members. *)
Lemma live_other_insert (w : World) this s tok e (a : Z) (o : object) :
  a <> this -> a <> cancellation_flag_mutex s -> a <> cancellation_flag s ->
  a <> parser s ->
  live w this s tok e -> live (set_heap (<[a := o]>) w) this s tok e.
Proof.
  intros N1 N2 N3 N4 []. split; cbn; try assumption;
    rewrite lookup_insert_ne by congruence; assumption.
Qed.

Lemma live_other_delete (w : World) this s tok e (a : Z) :
  a <> this -> a <> cancellation_flag_mutex s -> a <> cancellation_flag s ->
  a <> parser s ->
  live w this s tok e -> live (set_heap (delete a) w) this s tok e.
Proof.
  intros N1 N2 N3 N4 []. split; cbn; try assumption;
    rewrite lookup_delete_ne by congruence; assumption.
Qed.

(** ** 4.2 The flag cell *)

Lemma free_null (w : World) : free 0 w = Return tt w.
Proof. reflexivity. Qed.

Lemma free_flag (w : World) (p : Z) (v : option Z) :
  p <> 0 -> heap w !! p = Some (Flag v) ->
  free p w = Return tt (set_heap (delete p) w).
Proof.
  intros Hp Hv. unfold free. rewrite (proj2 (Z.eqb_neq p 0) Hp).
  run (apply deref_Return; eassumption). reflexivity.
Qed.

Lemma write_flag_flag (w : World) (p x : Z) (v : option Z) :
  p <> 0 -> heap w !! p = Some (Flag v) ->
  write_flag p x w = Return tt (set_heap (<[p := Flag (Some x)]>) w).
Proof.
  intros Hp Hv. unfold write_flag.
  run (apply deref_Return; eassumption). reflexivity.
Qed.

(** The storage of a token is none of the session's members. *)
Lemma token_distinct (w : World) this s tok e (a : Z) (v : option Z) :
  live w this s tok e -> heap w !! a = Some (Flag v) ->
  a <> this /\ a <> cancellation_flag_mutex s /\ a <> cancellation_flag s
  /\ a <> parser s.
Proof.
  intros [] Ha. repeat split; intros E; rewrite E in *; congruence.
Qed.

(** Neither is an address that is still free. *)
Lemma free_address_distinct (w : World) this s tok e (a : Z) :
  live w this s tok e -> heap w !! a = None ->
  a <> this /\ a <> cancellation_flag_mutex s /\ a <> cancellation_flag s
  /\ a <> parser s.
Proof.
  intros [] Ha. repeat split; intros E; rewrite E in *; congruence.
Qed.

Lemma world_eq (a b : World) :
  heap a = heap b -> pending a = pending b -> trace a = trace b -> a = b.
Proof. destruct a, b; cbn; intros -> -> ->; reflexivity. Qed.

(** ** 4.3 [end_round] *)

Lemma end_round_live (w : World) this s tok e :
  live w this s tok e ->
  (tok <> 0 -> exists v, heap w !! tok = Some (Flag v)) ->
  end_round this w = Return tt (ended w this s tok)
  /\ live (ended w this s tok) this s 0 (mkTSParser 0).
Proof.
  intros L Htok.
  set (w1 := if tok =? 0 then w else set_heap (delete tok) w).
  assert (F : free tok w = Return tt w1).
  { subst w1. destruct (tok =? 0) eqn:E.
    - apply Z.eqb_eq in E. subst tok. apply free_null.
    - apply Z.eqb_neq in E. destruct (Htok E) as [v Hv].
      eapply free_flag; eassumption. }
  assert (L1 : live w1 this s tok e).
  { subst w1. destruct (tok =? 0) eqn:E; [exact L|].
    apply Z.eqb_neq in E. destruct (Htok E) as [v Hv].
    destruct (token_distinct _ _ _ _ _ _ _ L Hv) as (?&?&?&?).
    apply live_other_delete; assumption. }
  pose proof (live_slot_store _ _ _ _ _ 0 L1) as L2.
  pose proof (live_engine_store _ _ _ _ _ 0 L2) as L3.
  assert (E3 : set_heap (<[parser s := Parser (mkTSParser 0)]>)
                 (set_heap (<[cancellation_flag s := AtomicPtr 0]>) w1)
               = mkWorld (heap (ended w this s tok)) (pending w) (trace w)).
  { subst w1. destruct (tok =? 0) eqn:E; unfold ended; rewrite E; reflexivity. }
  split.
  - unfold end_round.
    run (eapply get_cancellation_flag_live; exact L).
    run (exact F).
    run (eapply set_cancellation_flag_live; exact L1).
    run (eapply getParser_live;
         apply (live_heap (set_heap (<[cancellation_flag s := AtomicPtr 0]>) w1));
         [reflexivity|exact L2]).
    erewrite ts_parser_set_cancellation_flag_live
      by (apply (live_heap (set_heap (<[cancellation_flag s := AtomicPtr 0]>) w1));
          [reflexivity|exact L2]).
    f_equal. apply world_eq; cbn.
    + apply (f_equal heap) in E3. exact E3.
    + subst w1. destruct (tok =? 0); reflexivity.
    + subst w1. rewrite <- app_assoc. destruct (tok =? 0); reflexivity.
  - eapply live_heap; [|exact L3]. rewrite E3. reflexivity.
Qed.

(** [end_round] from [PARSING], whatever the flag holds by then. *)
Lemma end_round_parsing (w : World) this s tok v :
  parsing w this s tok v ->
  end_round this w = Return tt (ended w this s tok)
  /\ idle (ended w this s tok) this s
  /\ heap (ended w this s tok) !! tok = None
  /\ pending (ended w this s tok) = pending w.
Proof.
  intros (Htok & L & Hv).
  destruct (end_round_live w this s tok _ L) as [Hend Hidle].
  { intros _. exists v. exact Hv. }
  destruct (token_distinct _ _ _ _ _ _ _ L Hv) as (N1 & N2 & N3 & N4).
  split; [exact Hend|]. split; [exact Hidle|]. split; [|reflexivity].
  unfold ended. cbn. rewrite (proj2 (Z.eqb_neq tok 0) Htok).
  rewrite !lookup_insert_ne by congruence. apply lookup_delete_eq.
Qed.

(** ** 4.4 [begin_round] *)

Section Rounds.

Context `{Allocator} `{Engine}.

Lemma begin_round_idle (w : World) this s :
  fresh_allocator -> idle w this s ->
  let a := next_address (heap w) in
  heap w !! a = None
  /\ begin_round this w = Return true (begun w this s a)
  /\ parsing (begun w this s a) this s a (Some 0).
Proof.
  intros Hfresh L a. destruct (Hfresh (heap w)) as [Ha0 Hfree].
  fold a in Ha0, Hfree.
  destruct (free_address_distinct _ _ _ _ _ _ L Hfree) as (N1 & N2 & N3 & N4).
  set (w1 := set_heap (<[a := Flag None]>) w).
  assert (L1 : live w1 this s 0 (mkTSParser 0))
    by (apply live_other_insert; assumption).
  set (w2 := add_event (SlotStore this a)
               (set_heap (<[cancellation_flag s := AtomicPtr a]>) w1)).
  assert (L2 : live w2 this s a (mkTSParser 0)).
  { apply (live_heap (set_heap (<[cancellation_flag s := AtomicPtr a]>) w1));
      [reflexivity|]. eapply live_slot_store, L1. }
  assert (C2 : heap w2 !! a = Some (Flag None)).
  { subst w2 w1. cbn. rewrite lookup_insert_ne by congruence.
    apply lookup_insert_eq. }
  set (w3 := set_heap (<[a := Flag (Some 0)]>) w2).
  assert (L3 : live w3 this s a (mkTSParser 0))
    by (apply live_other_insert; assumption).
  assert (E : heap (begun w this s a)
              = <[parser s := Parser (mkTSParser a)]> (heap w3)).
  { subst w3 w2 w1. cbn. f_equal.
    rewrite (insert_insert_ne _ a (cancellation_flag s)) by congruence.
    rewrite insert_insert_eq. reflexivity. }
  split; [exact Hfree|]. split.
  - unfold begin_round.
    run (eapply get_cancellation_flag_live; exact L).
    cbn [Z.eqb negb].
    run (reflexivity). fold a. fold w1.
    run (eapply set_cancellation_flag_live; exact L1). fold w2.
    run (eapply write_flag_flag; eassumption). fold w3.
    run (eapply getParser_live; exact L3).
    run (eapply ts_parser_set_cancellation_flag_live; exact L3).
    unfold ret. f_equal. apply world_eq.
    + rewrite E. reflexivity.
    + reflexivity.
    + cbn. rewrite <- app_assoc. reflexivity.
  - split; [exact Ha0|]. split.
    + apply (live_heap (set_heap (<[parser s := Parser (mkTSParser a)]>) w3));
        [exact E|]. eapply live_engine_store, L3.
    + cbn. rewrite lookup_insert_ne by congruence.
      rewrite lookup_insert_ne by congruence. apply lookup_insert_eq.
Qed.

(** The guard: with a token in the slot, [begin_round] reports
    [InvalidState], returns [false] and touches nothing else. *)
Lemma begin_round_guard (w : World) this s tok e :
  live w this s tok e -> tok <> 0 ->
  begin_round this w = Return false (set_pending (InvalidState already_parsing) w).
Proof.
  intros L Htok. unfold begin_round.
  run (eapply get_cancellation_flag_live; exact L).
  rewrite (proj2 (Z.eqb_neq tok 0) Htok). reflexivity.
Qed.

(** ** 4.5 [requestCancellation] *)

Lemma requestCancellation_idle (w : World) this s e :
  live w this s 0 e -> Native_requestCancellation this w = Return false w.
Proof.
  intros L. unfold Native_requestCancellation.
  run (eapply get_cancellation_flag_live; exact L). reflexivity.
Qed.

Lemma requestCancellation_token (w : World) this s tok e v :
  live w this s tok e -> tok <> 0 -> heap w !! tok = Some (Flag v) ->
  Native_requestCancellation this w
  = Return true (set_heap (<[tok := Flag (Some 1)]>) w).
Proof.
  intros L Htok Hv. unfold Native_requestCancellation.
  run (eapply get_cancellation_flag_live; exact L).
  rewrite (proj2 (Z.eqb_neq tok 0) Htok).
  run (eapply write_flag_flag; eassumption). reflexivity.
Qed.

(** Writing the flag keeps the round as it is, but for the flag. *)
Lemma parsing_write_flag (w : World) this s tok v (x : Z) :
  parsing w this s tok v ->
  parsing (set_heap (<[tok := Flag (Some x)]>) w) this s tok (Some x).
Proof.
  intros (Htok & L & Hv).
  destruct (token_distinct _ _ _ _ _ _ _ L Hv) as (?&?&?&?).
  split; [exact Htok|]. split.
  - apply live_other_insert; assumption.
  - cbn. apply lookup_insert_eq.
Qed.

(** ** 4.6 [parse] *)

Lemma req_nnp_nonnull (w : World) (p : Z) (name : string) :
  p <> 0 -> req_nnp p name w = Return tt w.
Proof.
  intros Hp. unfold req_nnp. rewrite (proj2 (Z.eqb_neq p 0) Hp). reflexivity.
Qed.

Lemma load_string_Str (w : World) (p : Z) (u : TextBuffer.UTF16String) :
  p <> 0 -> heap w !! p = Some (Str u) -> load_string p w = Return u w.
Proof.
  intros Hp Hu. unfold load_string.
  run (apply deref_Return; eassumption). reflexivity.
Qed.

Lemma parse_string_encoding_live (w : World) this s tok e
    (old_tree : Z) (bytes : list Z) (len : Z) (enc : TSInputEncoding) :
  live w this s tok e ->
  ts_parser_parse_string_encoding (parser s) old_tree bytes len enc w
  = Return (engine_parse (heap w) (parser s) old_tree bytes len enc)
           (add_event (EngineParse (parser s) old_tree bytes len enc) w).
Proof.
  intros L. destruct L. unfold ts_parser_parse_string_encoding.
  run (apply deref_Return; eassumption). reflexivity.
Qed.

(** [tree_pointer == 0 ? nullptr : (TSTree * ) tree_pointer]. *)
Lemma old_tree_is_tree_pointer (tree_pointer : Z) :
  (if tree_pointer =? 0 then 0 else tree_pointer) = tree_pointer.
Proof.
  destruct (tree_pointer =? 0) eqn:E; [|reflexivity].
  apply Z.eqb_eq in E. congruence.
Qed.

(** A whole round, from [IDLE]. *)
Lemma parse_idle (w : World) this s (tree_pointer str_pointer : Z)
    (u : TextBuffer.UTF16String) :
  fresh_allocator -> idle w this s ->
  str_pointer <> 0 -> heap w !! str_pointer = Some (Str u) ->
  let a := next_address (heap w) in
  Native_parse this tree_pointer str_pointer w
  = Return (parse_answer (heap (begun w this s a)) s tree_pointer u)
      (mkWorld (heap w) (pending w)
         (trace w ++ [SlotStore this a; EngineSetFlag (parser s) a;
                      parse_call s tree_pointer u;
                      SlotStore this 0; EngineSetFlag (parser s) 0])).
Proof.
  intros Hfresh L Hstr Hu a.
  destruct (begin_round_idle w this s Hfresh L) as (Hfree & Hbegin & P).
  fold a in Hfree, Hbegin, P. destruct P as (Ha0 & L1 & Hflag).
  destruct (free_address_distinct _ _ _ _ _ _ L Hfree) as (N1 & N2 & N3 & N4).
  assert (Sa : str_pointer <> a) by (intros E; rewrite E in *; congruence).
  assert (Ss : str_pointer <> cancellation_flag s /\ str_pointer <> parser s).
  { destruct L. split; intros E; rewrite E in *; congruence. }
  destruct Ss as [S1 S2].
  set (w1 := begun w this s a) in *.
  assert (Hu1 : heap w1 !! str_pointer = Some (Str u)).
  { subst w1. cbn. rewrite !lookup_insert_ne by congruence. exact Hu. }
  set (w2 := add_event (parse_call s tree_pointer u) w1).
  assert (L2 : live w2 this s a (mkTSParser a))
    by (apply (live_heap w1); [reflexivity|exact L1]).
  destruct (end_round_live w2 this s a _ L2) as [Hend _].
  { intros _. exists (Some 0). exact Hflag. }
  unfold Native_parse.
  run (apply req_nnp_nonnull; apply (live_this _ _ _ _ _ L)).
  run (apply req_nnp_nonnull; exact Hstr).
  run (eapply getParser_live; exact L).
  run (exact Hbegin).
  run (apply load_string_Str; [exact Hstr|exact Hu1]).
  rewrite old_tree_is_tree_pointer.
  run (eapply parse_string_encoding_live; exact L1).
  run (exact Hend).
  unfold ret. f_equal. apply world_eq.
  - unfold ended. rewrite (proj2 (Z.eqb_neq a 0) Ha0). cbn.
    destruct L. apply map_eq. intros i.
    destruct (decide (i = parser s)) as [->|Np];
      [rewrite lookup_insert_eq; congruence|].
    rewrite lookup_insert_ne by congruence.
    destruct (decide (i = cancellation_flag s)) as [->|Nc];
      [rewrite lookup_insert_eq; congruence|].
    rewrite lookup_insert_ne by congruence.
    destruct (decide (i = a)) as [->|Na];
      [rewrite lookup_delete_eq; congruence|].
    rewrite lookup_delete_ne by congruence.
    rewrite !lookup_insert_ne by congruence. reflexivity.
  - reflexivity.
  - cbn. rewrite <- !app_assoc. reflexivity.
Qed.

(** [parse] on a session whose slot already holds a token: the result of
    [begin_round] is dropped, the engine runs, and [end_round] runs. *)
Lemma parse_parsing (w : World) this s tok v (tree_pointer str_pointer : Z)
    (u : TextBuffer.UTF16String) :
  parsing w this s tok v ->
  str_pointer <> 0 -> heap w !! str_pointer = Some (Str u) ->
  Native_parse this tree_pointer str_pointer w
  = Return (parse_answer (heap w) s tree_pointer u)
      (mkWorld
         (<[parser s := Parser (mkTSParser 0)]>
            (<[cancellation_flag s := AtomicPtr 0]> (delete tok (heap w))))
         (Some (InvalidState already_parsing))
         (trace w ++ [parse_call s tree_pointer u;
                      SlotStore this 0; EngineSetFlag (parser s) 0])).
Proof.
  intros (Htok & L & Hflag) Hstr Hu.
  set (w1 := set_pending (InvalidState already_parsing) w).
  assert (L1 : live w1 this s tok (mkTSParser tok))
    by (apply (live_heap w); [reflexivity|exact L]).
  set (w2 := add_event (parse_call s tree_pointer u) w1).
  assert (L2 : live w2 this s tok (mkTSParser tok))
    by (apply (live_heap w); [reflexivity|exact L]).
  destruct (end_round_live w2 this s tok _ L2) as [Hend _].
  { intros _. exists v. exact Hflag. }
  unfold Native_parse.
  run (apply req_nnp_nonnull; apply (live_this _ _ _ _ _ L)).
  run (apply req_nnp_nonnull; exact Hstr).
  run (eapply getParser_live; exact L).
  run (eapply begin_round_guard; [exact L|exact Htok]).
  run (apply load_string_Str; [exact Hstr|exact Hu]).
  rewrite old_tree_is_tree_pointer.
  run (eapply parse_string_encoding_live; exact L1).
  run (exact Hend).
  unfold ret. f_equal. apply world_eq.
  - unfold ended. rewrite (proj2 (Z.eqb_neq tok 0) Htok). reflexivity.
  - reflexivity.
  - cbn. rewrite <- !app_assoc. reflexivity.
Qed.

End Rounds.

(** ** 4.7 The concrete allocator and worlds *)

Lemma largest_address_bound (h : gmap Z object) (k : Z) (o : object) :
  h !! k = Some o -> k <= largest_address h.
Proof.
  unfold largest_address. revert k o.
  apply (map_fold_weak_ind
           (fun r (m : gmap Z object) => forall k o, m !! k = Some o -> k <= r)).
  - intros k o Hk. rewrite lookup_empty in Hk. discriminate.
  - intros i x m r _ IH k o Hk.
    destruct (decide (i = k)) as [->|Hne]; [lia|].
    rewrite lookup_insert_ne in Hk by exact Hne.
    specialize (IH k o Hk). lia.
Qed.

Lemma largest_address_nonneg (h : gmap Z object) : 0 <= largest_address h.
Proof.
  unfold largest_address.
  apply (map_fold_weak_ind (fun r (_ : gmap Z object) => 0 <= r)); intros; lia.
Qed.

Lemma bump_allocator_fresh : @fresh_allocator bump_allocator.
Proof.
  intros h. cbn. pose proof (largest_address_nonneg h). split; [lia|].
  destruct (h !! (1 + largest_address h)) eqn:E; [|reflexivity].
  apply largest_address_bound in E. lia.
Qed.

Lemma idle_world_idle : idle idle_world 1 session1.
Proof. split; first [discriminate | reflexivity]. Qed.

Lemma parsing_world_parsing : parsing parsing_world 1 session1 6 (Some 0).
Proof.
  split; [discriminate|].
  split; [split; first [discriminate | reflexivity] | reflexivity].
Qed.

(** [newParser] on the empty heap, then a round begun, give the two
    worlds (but for the text buffer, which the caller creates). *)
Example newParser_on_empty_heap :
  @Native_newParser bump_allocator (mkWorld ∅ None [])
  = Return 1 (mkWorld (delete 5 (heap idle_world)) None []).
Proof. vm_compute. reflexivity. Qed.

Example begin_round_on_idle_world :
  @begin_round bump_allocator 1 idle_world
  = Return true (mkWorld (heap parsing_world) None
                   [SlotStore 1 6; EngineSetFlag 4 6]).
Proof. vm_compute. reflexivity. Qed.

(** ** 4.8 The state machine *)

Section Claims.

Context `{Allocator} `{Engine}.

(** X1.  [newParser] creates a session in [IDLE], at an address not in
    use before, and touches nothing that was there. *)
Lemma newParser_idle (w : World) :
  fresh_allocator ->
  exists (this : Z) (s : TSParserInternal) (w' : World),
    Native_newParser w = Return this w'
    /\ idle w' this s
    /\ heap w !! this = None
    /\ (forall (k : Z) (o : object), heap w !! k = Some o -> heap w' !! k = Some o)
    /\ pending w' = pending w /\ trace w' = trace w.
Proof.
  intros Hfresh.
  set (this := next_address (heap w)).
  set (h1 := <[this := Internal (mkTSParserInternal 0 0 0)]> (heap w)).
  set (m := next_address h1).
  set (h2 := <[m := Mutex]> h1).
  set (a := next_address h2).
  set (h3 := <[a := AtomicPtr 0]> h2).
  set (p := next_address h3).
  set (h4 := <[p := Parser (mkTSParser 0)]> h3).
  set (s := mkTSParserInternal m a p).
  destruct (Hfresh (heap w)) as [T0 T1]. fold this in T0, T1.
  destruct (Hfresh h1) as [M0 M1]. fold m in M0, M1.
  destruct (Hfresh h2) as [A0 A1]. fold a in A0, A1.
  destruct (Hfresh h3) as [P0 P1]. fold p in P0, P1.
  assert (Nmt : m <> this).
  { intros E. subst h1. rewrite E, lookup_insert_eq in M1. discriminate. }
  assert (Nam : a <> m).
  { intros E. subst h2. rewrite E, lookup_insert_eq in A1. discriminate. }
  assert (Nat : a <> this).
  { intros E. subst h2 h1. rewrite lookup_insert_ne in A1 by congruence.
    rewrite E, lookup_insert_eq in A1. discriminate. }
  assert (Npa : p <> a).
  { intros E. subst h3. rewrite E, lookup_insert_eq in P1. discriminate. }
  assert (Npm : p <> m).
  { intros E. subst h3 h2. rewrite lookup_insert_ne in P1 by congruence.
    rewrite E, lookup_insert_eq in P1. discriminate. }
  assert (Npt : p <> this).
  { intros E. subst h3 h2 h1. rewrite !lookup_insert_ne in P1 by congruence.
    rewrite E, lookup_insert_eq in P1. discriminate. }
  exists this, s, (mkWorld (<[this := Internal s]> h4) (pending w) (trace w)).
  split; [reflexivity|]. split; [|split; [exact T1|split; [|split; reflexivity]]].
  - subst h4 h3 h2 h1. split; cbn; try assumption.
    + apply lookup_insert_eq.
    + rewrite !lookup_insert_ne by congruence. apply lookup_insert_eq.
    + rewrite !lookup_insert_ne by congruence. apply lookup_insert_eq.
    + rewrite lookup_insert_ne by congruence. apply lookup_insert_eq.
  - intros k o Hk. cbn.
    assert (k <> this) by (intros E; rewrite E in *; congruence).
    assert (Hk1 : h1 !! k = Some o)
      by (subst h1; rewrite lookup_insert_ne by congruence; exact Hk).
    assert (k <> m) by (intros E; rewrite E in *; congruence).
    assert (Hk2 : h2 !! k = Some o)
      by (subst h2; rewrite lookup_insert_ne by congruence; exact Hk1).
    assert (k <> a) by (intros E; rewrite E in *; congruence).
    assert (Hk3 : h3 !! k = Some o)
      by (subst h3; rewrite lookup_insert_ne by congruence; exact Hk2).
    assert (k <> p) by (intros E; rewrite E in *; congruence).
    subst h4. rewrite !lookup_insert_ne by congruence. exact Hk3.
Qed.

(** The state machine: from a well-formed session no call of the round
    protocol runs into undefined behaviour, and each leaves the session
    well-formed. *)
Lemma begin_round_well_formed (w : World) this s :
  fresh_allocator -> well_formed w this s ->
  exists (b : bool) (w' : World),
    begin_round this w = Return b w'
    /\ (exists (tok : Z) (v : option Z), parsing w' this s tok v)
    /\ (b = true <-> idle w this s).
Proof.
  intros Hfresh [L|(tok & v & P)].
  - destruct (begin_round_idle w this s Hfresh L) as (_ & Hbegin & P).
    do 2 eexists. split; [exact Hbegin|]. split; [do 2 eexists; exact P|].
    split; [intros _; exact L|reflexivity].
  - pose proof P as (Htok & L & Hv).
    do 2 eexists. split; [eapply begin_round_guard; [exact L|exact Htok]|].
    split.
    + exists tok, v. split; [exact Htok|]. split; [|exact Hv].
      apply (live_heap w); [reflexivity|exact L].
    + split; [discriminate|]. intros L0. exfalso. apply Htok.
      pose proof (live_slot _ _ _ _ _ L) as E1.
      pose proof (live_slot _ _ _ _ _ L0) as E2. congruence.
Qed.

Lemma end_round_well_formed (w : World) this s :
  well_formed w this s ->
  exists w' : World, end_round this w = Return tt w' /\ idle w' this s.
Proof.
  intros [L|(tok & v & P)].
  - destruct (end_round_live w this s 0 _ L) as [Hend Hidle];
      [intros N; congruence|].
    eexists. split; [exact Hend|exact Hidle].
  - destruct (end_round_parsing w this s tok v P) as (Hend & Hidle & _).
    eexists. split; [exact Hend|exact Hidle].
Qed.

Lemma requestCancellation_well_formed (w : World) this s :
  well_formed w this s ->
  exists (b : bool) (w' : World),
    Native_requestCancellation this w = Return b w'
    /\ well_formed w' this s
    /\ (b = false <-> idle w this s).
Proof.
  intros [L|(tok & v & P)].
  - exists false, w. split; [eapply requestCancellation_idle, L|].
    split; [left; exact L|]. split; [intros _; exact L|reflexivity].
  - pose proof P as (Htok & L & Hv).
    exists true, (set_heap (<[tok := Flag (Some 1)]>) w).
    split; [eapply requestCancellation_token; eassumption|]. split.
    + right. exists tok, (Some 1). apply parsing_write_flag with (v := v), P.
    + split; [discriminate|]. intros L0. exfalso. apply Htok.
      pose proof (live_slot _ _ _ _ _ L) as E1.
      pose proof (live_slot _ _ _ _ _ L0) as E2. congruence.
Qed.

(** C3.  On a live session whose slot holds [tok] (with storage behind it
    when it is not null), [requestCancellation] returns [true] exactly
    when a token is installed; it then writes the non-zero value 1 into
    the token's flag and changes nothing else; with no token installed it
    returns [false] and the world is the one it was called in: nothing is
    written and no error is raised. *)
Theorem requestCancellation_exactly_when_parsing
    (w : World) (this : Z) (s : TSParserInternal) (tok : Z) (e : TSParser) :
  live w this s tok e ->
  (tok <> 0 -> exists v, heap w !! tok = Some (Flag v)) ->
  exists (b : bool) (w' : World),
    Native_requestCancellation this w = Return b w'
    /\ (b = true <-> tok <> 0)
    /\ (tok <> 0 ->
        w' = set_heap (<[tok := Flag (Some 1)]>) w
        /\ heap w' !! tok = Some (Flag (Some 1)))
    /\ (tok = 0 -> b = false /\ w' = w).
Proof.
  intros L Hstore. destruct (decide (tok = 0)) as [E|N].
  - subst tok. exists false, w. split; [|split; [|split]].
    + eapply requestCancellation_idle, L.
    + split; [discriminate|congruence].
    + intros N. congruence.
    + intros _. split; reflexivity.
  - destruct (Hstore N) as [v Hv].
    exists true, (set_heap (<[tok := Flag (Some 1)]>) w).
    split; [|split; [|split]].
    + eapply requestCancellation_token; eassumption.
    + split; [intros _; exact N|reflexivity].
    + intros _. split; [reflexivity|]. cbn. apply lookup_insert_eq.
    + intros E. congruence.
Qed.

(** A request during the round of [parsing_world] sets the flag at
    address 6; a request on [idle_world] answers [false]. *)
Lemma requestCancellation_exactly_when_parsing_witness :
  (exists (b : bool) (w' : World),
     Native_requestCancellation 1 parsing_world = Return b w'
     /\ (b = true <-> 6 <> 0)
     /\ (6 <> 0 ->
         w' = set_heap (<[6 := Flag (Some 1)]>) parsing_world
         /\ heap w' !! 6 = Some (Flag (Some 1)))
     /\ (6 = 0 -> b = false /\ w' = parsing_world))
  /\ Native_requestCancellation 1 idle_world = Return false idle_world.
Proof.
  split; [|reflexivity].
  apply (requestCancellation_exactly_when_parsing
           parsing_world 1 session1 6 (mkTSParser 6)).
  - split; first [discriminate | reflexivity].
  - intros _. exists (Some 0). reflexivity.
Defined.

(** C10.  During a round, a request for cancellation returns [true] and
    leaves the flag at 1; a further request, made while the flag is
    already set, again writes 1, again returns [true], and leaves the
    world exactly as the first request left it; so does any number of
    further requests. *)
Theorem requestCancellation_idempotent
    (w : World) (this : Z) (s : TSParserInternal) (tok : Z) (v : option Z) :
  parsing w this s tok v ->
  exists w1 : World,
    Native_requestCancellation this w = Return true w1
    /\ heap w1 !! tok = Some (Flag (Some 1))
    /\ parsing w1 this s tok (Some 1)
    /\ Native_requestCancellation this w1 = Return true w1
    /\ forall n : nat, request_repeatedly n this w1 = Return true w1.
Proof.
  intros P. pose proof P as (Htok & L & Hv).
  set (w1 := set_heap (<[tok := Flag (Some 1)]>) w).
  pose proof (parsing_write_flag w this s tok v 1 P) as P1. fold w1 in P1.
  pose proof P1 as (_ & L1 & Hv1).
  assert (Again : Native_requestCancellation this w1 = Return true w1).
  { rewrite (requestCancellation_token w1 this s tok _ (Some 1) L1 Htok Hv1).
    f_equal. apply world_eq; try reflexivity.
    subst w1. cbn. apply insert_insert_eq. }
  exists w1. split; [|split; [|split; [|split]]].
  - eapply requestCancellation_token; eassumption.
  - exact Hv1.
  - exact P1.
  - exact Again.
  - intros n. induction n as [|n IH]; cbn [request_repeatedly].
    + exact Again.
    + run (exact Again). exact IH.
Qed.

Lemma requestCancellation_idempotent_witness :
  exists w1 : World,
    Native_requestCancellation 1 parsing_world = Return true w1
    /\ heap w1 !! 6 = Some (Flag (Some 1))
    /\ parsing w1 1 session1 6 (Some 1)
    /\ Native_requestCancellation 1 w1 = Return true w1
    /\ forall n : nat, request_repeatedly n 1 w1 = Return true w1.
Proof.
  apply (requestCancellation_idempotent parsing_world 1 session1 6 (Some 0)).
  split; [discriminate|].
  split; [split; first [discriminate | reflexivity] | reflexivity].
Defined.

(** C4.  A round started on an [IDLE] session: [begin_round] installs a
    token at a so far unused address, with its flag at 0, in the slot and
    on the engine; [end_round] takes the session back to [IDLE] and
    releases the token, whatever value the flag holds by then; and
    [parse] as a whole, whatever the engine answers, stores into the slot
    exactly twice (the token, then null), comes back with the heap and
    the pending exception as they were, the session [IDLE], and a further
    [begin_round] succeeds. *)
Theorem parse_round_token_lifecycle
    (w : World) (this : Z) (s : TSParserInternal)
    (tree_pointer str_pointer : Z) (u : TextBuffer.UTF16String) :
  fresh_allocator -> idle w this s ->
  str_pointer <> 0 -> heap w !! str_pointer = Some (Str u) ->
  let tok := next_address (heap w) in
  heap w !! tok = None
  /\ (exists w1 : World,
        begin_round this w = Return true w1 /\ parsing w1 this s tok (Some 0))
  /\ (forall (w1 : World) (v : option Z),
        parsing w1 this s tok v ->
        exists w2 : World,
          end_round this w1 = Return tt w2
          /\ idle w2 this s /\ heap w2 !! tok = None)
  /\ (exists (tree : Z) (w' : World),
        Native_parse this tree_pointer str_pointer w = Return tree w'
        /\ idle w' this s
        /\ heap w' = heap w
        /\ pending w' = pending w
        /\ trace w' = trace w ++ [SlotStore this tok; EngineSetFlag (parser s) tok;
                                  parse_call s tree_pointer u;
                                  SlotStore this 0; EngineSetFlag (parser s) 0]
        /\ exists w'' : World, begin_round this w' = Return true w'').
Proof.
  intros Hfresh L Hstr Hu tok.
  destruct (begin_round_idle w this s Hfresh L) as (Hfree & Hbegin & P).
  fold tok in Hfree, Hbegin, P.
  split; [exact Hfree|]. split; [|split].
  - eexists. split; [exact Hbegin|exact P].
  - intros w1 v P1.
    destruct (end_round_parsing w1 this s tok v P1) as (E1 & E2 & E3 & _).
    eexists. split; [exact E1|]. split; [exact E2|exact E3].
  - pose proof (parse_idle w this s tree_pointer str_pointer u Hfresh L Hstr Hu)
      as Hparse. cbv zeta in Hparse. fold tok in Hparse.
    do 2 eexists. split; [exact Hparse|].
    assert (L' : forall t, idle (mkWorld (heap w) (pending w) t) this s)
      by (intros t; apply (live_heap w); [reflexivity|exact L]).
    split; [apply L'|]. split; [reflexivity|]. split; [reflexivity|].
    split; [reflexivity|].
    destruct (begin_round_idle _ this s Hfresh (L' (trace w ++
                [SlotStore this tok; EngineSetFlag (parser s) tok;
                 parse_call s tree_pointer u;
                 SlotStore this 0; EngineSetFlag (parser s) 0])))
      as (_ & Hagain & _).
    eexists. exact Hagain.
Qed.

(** C5.  On a live session, [IDLE] or [PARSING],
    [parse(old_tree, buffer)] makes one call into the engine: on the
    session's parser, with the previous tree as the caller gave it (null
    for the zero handle), the bytes [to_cstring()] returns, the buffer's
    [byte_length()] and the UTF-16 marker; what [parse] returns is what
    the engine answers to that call (on the heap [begin_round] left),
    null included; and on an [IDLE] session the call raises no error: the
    pending exception is the one it found. *)
Theorem parse_delegates_to_engine
    (w : World) (this : Z) (s : TSParserInternal)
    (tree_pointer str_pointer : Z) (u : TextBuffer.UTF16String) :
  fresh_allocator -> well_formed w this s ->
  str_pointer <> 0 -> heap w !! str_pointer = Some (Str u) ->
  exists (b : bool) (w1 w' : World) (before after : list event),
    begin_round this w = Return b w1
    /\ Native_parse this tree_pointer str_pointer w
       = Return (engine_parse (heap w1) (parser s) tree_pointer
                   (TextBuffer.to_cstring u) (TextBuffer.byte_length u)
                   TSInputEncodingUTF16) w'
    /\ trace w' = trace w ++ before ++
         [EngineParse (parser s) tree_pointer
            (TextBuffer.to_cstring u) (TextBuffer.byte_length u)
            TSInputEncodingUTF16] ++ after
    /\ (forall self old_tree bytes len enc,
          ~ In (EngineParse self old_tree bytes len enc) (before ++ after))
    /\ (idle w this s -> b = true /\ pending w' = pending w).
Proof.
  intros Hfresh [L|(tok & v & P)] Hstr Hu.
  - destruct (begin_round_idle w this s Hfresh L) as (_ & Hbegin & _).
    pose proof (parse_idle w this s tree_pointer str_pointer u Hfresh L Hstr Hu)
      as Hparse. cbv zeta in Hparse.
    set (tok := next_address (heap w)) in *.
    exists true, (begun w this s tok). eexists.
    exists [SlotStore this tok; EngineSetFlag (parser s) tok],
           [SlotStore this 0; EngineSetFlag (parser s) 0].
    split; [exact Hbegin|]. split; [exact Hparse|].
    split; [reflexivity|]. split; [|intros _; split; reflexivity].
    intros self old_tree bytes len enc Hin. cbn in Hin.
    repeat (destruct Hin as [Hin|Hin]; [discriminate|]). exact Hin.
  - pose proof P as (Htok & L & Hv).
    exists false, (set_pending (InvalidState already_parsing) w). eexists.
    exists [], [SlotStore this 0; EngineSetFlag (parser s) 0].
    split; [eapply begin_round_guard; [exact L|exact Htok]|].
    split; [exact (parse_parsing w this s tok v tree_pointer str_pointer u P Hstr Hu)|].
    split; [reflexivity|]. split.
    + intros self old_tree bytes len enc Hin. cbn in Hin.
      repeat (destruct Hin as [Hin|Hin]; [discriminate|]). exact Hin.
    + intros L0. exfalso. apply Htok.
      pose proof (live_slot _ _ _ _ _ L) as E1.
      pose proof (live_slot _ _ _ _ _ L0) as E2. congruence.
Qed.

(** C1.  On a session in [PARSING], [begin_round] itself reports
    [InvalidState], returns [false] and leaves heap and trace as they
    were.  [parse] however drops that result: called while the token
    [tok] of another round is installed, it goes on to run the engine and
    [end_round], and comes back with the storage of [tok] released, the
    slot and the engine's flag pointer null (the session [IDLE]), and
    [InvalidState] pending. *)
Theorem parse_in_active_round_releases_its_token
    (w : World) (this : Z) (s : TSParserInternal) (tok : Z) (v : option Z)
    (tree_pointer str_pointer : Z) (u : TextBuffer.UTF16String) :
  parsing w this s tok v ->
  str_pointer <> 0 -> heap w !! str_pointer = Some (Str u) ->
  begin_round this w
  = Return false (mkWorld (heap w) (Some (InvalidState already_parsing)) (trace w))
  /\ exists (tree : Z) (w' : World),
       Native_parse this tree_pointer str_pointer w = Return tree w'
       /\ heap w' !! tok = None
       /\ idle w' this s
       /\ pending w' = Some (InvalidState already_parsing).
Proof.
  intros P Hstr Hu. pose proof P as (Htok & L & Hv). split.
  - eapply begin_round_guard; [exact L|exact Htok].
  - do 2 eexists. split; [eapply parse_parsing; eassumption|].
    destruct (end_round_parsing w this s tok v P) as (_ & E2 & E3 & _).
    unfold ended in E2, E3. rewrite (proj2 (Z.eqb_neq tok 0) Htok) in E2, E3.
    split; [exact E3|]. split; [|reflexivity].
    eapply live_heap; [|exact E2]. reflexivity.
Qed.

(** C2 (as the code has it).  On an [IDLE] session, [end_round] called
    without a [begin_round] before it returns normally: it raises nothing
    (the pending exception is the one it found), the heap is the one it
    found, and the session is still [IDLE]; the two stores of null (into
    the slot, into the engine) are all it does. *)
Theorem end_round_idle_is_silent
    (w : World) (this : Z) (s : TSParserInternal) :
  idle w this s ->
  exists w' : World,
    end_round this w = Return tt w'
    /\ pending w' = pending w
    /\ heap w' = heap w
    /\ idle w' this s
    /\ trace w' = trace w ++ [SlotStore this 0; EngineSetFlag (parser s) 0].
Proof.
  intros L. destruct (end_round_live w this s 0 _ L) as [Hend Hidle].
  { intros N. congruence. }
  exists (ended w this s 0).
  split; [exact Hend|]. split; [reflexivity|]. split; [|split; [exact Hidle|reflexivity]].
  unfold ended. cbn. destruct L.
  rewrite (insert_id (heap w) (cancellation_flag s)) by assumption.
  apply insert_id. assumption.
Qed.

(** [parse] validates its buffer handle as well. *)
Lemma parse_null_buffer_handle (w : World) this s tok e (tree_pointer : Z) :
  live w this s tok e ->
  Native_parse this tree_pointer 0 w = Throw (NullArgument "string") w.
Proof.
  intros L. unfold Native_parse.
  run (apply req_nnp_nonnull; apply (live_this _ _ _ _ _ L)).
  reflexivity.
Qed.

(** C6.  [requestCancellation] does not validate its handle: on the null
    handle it goes straight to [get_cancellation_flag] on the null
    pointer, which is undefined behaviour, and no [NullArgument] is
    raised.  Its siblings [delete] and [parse] do validate theirs. *)
Theorem requestCancellation_null_handle_unchecked (w : World) :
  Native_requestCancellation 0 w = Undefined
  /\ Native_delete 0 w = Throw (NullArgument "") w
  /\ (forall tree_pointer str_pointer : Z,
        Native_parse 0 tree_pointer str_pointer w = Throw (NullArgument "") w).
Proof. split; [reflexivity|]. split; reflexivity. Qed.

End Claims.

(** ** 4.9 The theorems at the concrete worlds *)

Section Witnesses.

#[local] Existing Instance bump_allocator.
#[local] Existing Instance polling_engine.

Lemma buffer_in_idle_world : heap idle_world !! 5 = Some (Str TextBuffer.abc).
Proof. reflexivity. Qed.

(** A whole round on [idle_world]: the token is allocated at address 6,
    the polling engine returns its tree, and the world is [idle_world]
    again but for the trace. *)
Lemma parse_round_token_lifecycle_witness :
  let tok := next_address (heap idle_world) in
  tok = 6
  /\ heap idle_world !! tok = None
  /\ (exists w1 : World,
        begin_round 1 idle_world = Return true w1
        /\ parsing w1 1 session1 tok (Some 0))
  /\ (forall (w1 : World) (v : option Z),
        parsing w1 1 session1 tok v ->
        exists w2 : World,
          end_round 1 w1 = Return tt w2
          /\ idle w2 1 session1 /\ heap w2 !! tok = None)
  /\ (exists (tree : Z) (w' : World),
        Native_parse 1 0 5 idle_world = Return tree w'
        /\ idle w' 1 session1
        /\ heap w' = heap idle_world
        /\ pending w' = pending idle_world
        /\ trace w' = trace idle_world ++
                      [SlotStore 1 tok; EngineSetFlag (parser session1) tok;
                       parse_call session1 0 TextBuffer.abc;
                       SlotStore 1 0; EngineSetFlag (parser session1) 0]
        /\ exists w'' : World, begin_round 1 w' = Return true w'').
Proof.
  intros tok. split; [vm_compute; reflexivity|].
  apply (parse_round_token_lifecycle idle_world 1 session1 0 5 TextBuffer.abc).
  - exact bump_allocator_fresh.
  - split; first [discriminate | reflexivity].
  - discriminate.
  - reflexivity.
Defined.

Lemma parse_delegates_to_engine_witness :
  exists (b : bool) (w1 w' : World) (before after : list event),
    begin_round 1 idle_world = Return b w1
    /\ Native_parse 1 0 5 idle_world
       = Return (engine_parse (heap w1) (parser session1) 0
                   (TextBuffer.to_cstring TextBuffer.abc)
                   (TextBuffer.byte_length TextBuffer.abc)
                   TSInputEncodingUTF16) w'
    /\ trace w' = trace idle_world ++ before ++
         [EngineParse (parser session1) 0
            (TextBuffer.to_cstring TextBuffer.abc)
            (TextBuffer.byte_length TextBuffer.abc)
            TSInputEncodingUTF16] ++ after
    /\ (forall self old_tree bytes len enc,
          ~ In (EngineParse self old_tree bytes len enc) (before ++ after))
    /\ (idle idle_world 1 session1 -> b = true /\ pending w' = pending idle_world).
Proof.
  apply (parse_delegates_to_engine idle_world 1 session1 0 5 TextBuffer.abc).
  - exact bump_allocator_fresh.
  - left. split; first [discriminate | reflexivity].
  - discriminate.
  - reflexivity.
Defined.

(** The scenario of section 8: [begin_round] succeeds, a second one
    fails, and after [end_round] a third one succeeds again. *)
Example round_scenario :
  exists w' : World,
    (b1 <- begin_round 1 ;;
     b2 <- begin_round 1 ;;
     end_round 1 ;;;
     b3 <- begin_round 1 ;;
     ret (b1, b2, b3)) idle_world
    = Return (true, false, true) w'
    /\ parsing w' 1 session1 6 (Some 0).
Proof.
  eexists. split; [vm_compute; reflexivity|].
  split; [discriminate|].
  split; [split; first [discriminate | reflexivity] | reflexivity].
Qed.

(** A round in which cancellation is requested after [begin_round] and
    before the engine polls the flag: the request answers [true], the
    engine gives up, the steps of [parse] return the null tree, no error
    is pending, and the heap is that of [idle_world] again. *)
Example cancelled_round_scenario :
  (begin_round 1 ;;;
   c <- Native_requestCancellation 1 ;;
   u <- load_string 5 ;;
   tree <- ts_parser_parse_string_encoding 4 0
             (TextBuffer.to_cstring u) (TextBuffer.byte_length u)
             TSInputEncodingUTF16 ;;
   end_round 1 ;;;
   ret (c, tree)) idle_world
  = Return (true, 0)
      (mkWorld (heap idle_world) None
         [SlotStore 1 6; EngineSetFlag 4 6;
          EngineParse 4 0 [97; 0; 98; 0; 99; 0] 6 TSInputEncodingUTF16;
          SlotStore 1 0; EngineSetFlag 4 0]).
Proof. vm_compute. reflexivity. Qed.

(** The polling engine's answer in that round is its tree. *)
Example parse_on_idle_world :
  Native_parse 1 0 5 idle_world
  = Return 4096
      (mkWorld (heap idle_world) None
         [SlotStore 1 6; EngineSetFlag 4 6;
          EngineParse 4 0 [97; 0; 98; 0; 99; 0] 6 TSInputEncodingUTF16;
          SlotStore 1 0; EngineSetFlag 4 0]).
Proof. vm_compute. reflexivity. Qed.

(** [parse] called on [parsing_world], where the round of another caller
    has its token at address 6. *)
Lemma parse_in_active_round_releases_its_token_witness :
  begin_round 1 parsing_world
  = Return false (mkWorld (heap parsing_world)
                    (Some (InvalidState already_parsing)) [])
  /\ exists (tree : Z) (w' : World),
       Native_parse 1 0 5 parsing_world = Return tree w'
       /\ heap w' !! 6 = None
       /\ idle w' 1 session1
       /\ pending w' = Some (InvalidState already_parsing).
Proof.
  apply (parse_in_active_round_releases_its_token
           parsing_world 1 session1 6 (Some 0) 0 5 TextBuffer.abc).
  - split; [discriminate|].
    split; [split; first [discriminate | reflexivity] | reflexivity].
  - discriminate.
  - reflexivity.
Defined.

(** The same, evaluated: the heap [parse] leaves is that of [idle_world],
    the token of the active round is gone. *)
Example parse_on_parsing_world :
  Native_parse 1 0 5 parsing_world
  = Return 4096
      (mkWorld (heap idle_world) (Some (InvalidState already_parsing))
         [EngineParse 4 0 [97; 0; 98; 0; 99; 0] 6 TSInputEncodingUTF16;
          SlotStore 1 0; EngineSetFlag 4 0]).
Proof. vm_compute. reflexivity. Qed.

Lemma end_round_idle_is_silent_witness :
  exists w' : World,
    end_round 1 idle_world = Return tt w'
    /\ pending w' = None
    /\ heap w' = heap idle_world
    /\ idle w' 1 session1
    /\ trace w' = [SlotStore 1 0; EngineSetFlag 4 0].
Proof.
  apply (end_round_idle_is_silent idle_world 1 session1).
  split; first [discriminate | reflexivity].
Defined.

(** C2, as the spec states it, fails on [idle_world]: the session is
    [IDLE], no round was begun, and [end_round] returns without reporting
    [InvalidState]. *)
Lemma end_round_idle_reports_nothing :
  idle idle_world 1 session1
  /\ end_round 1 idle_world
     = Return tt (mkWorld (heap idle_world) None
                    [SlotStore 1 0; EngineSetFlag 4 0])
  /\ ~ reports_invalid_state (end_round 1 idle_world).
Proof.
  split; [exact idle_world_idle|].
  assert (E : end_round 1 idle_world
              = Return tt (mkWorld (heap idle_world) None
                             [SlotStore 1 0; EngineSetFlag 4 0]))
    by (vm_compute; reflexivity).
  split; [exact E|]. rewrite E. cbn. intros [msg Hmsg]. discriminate.
Qed.

End Witnesses.

(** ** 4.10 Creation and destruction *)

Section Lifecycle.

Context `{Allocator} `{Engine}.



Lemma delete_object_Return (w : World) (p : Z) (o : object) :
  p <> 0 -> heap w !! p = Some o ->
  delete_object p w = Return tt (set_heap (delete p) w).
Proof.
  intros Hp Ho. unfold delete_object. rewrite (proj2 (Z.eqb_neq p 0) Hp).
  run (apply deref_Return; eassumption). reflexivity.
Qed.

Lemma ts_parser_delete_Return (w : World) (p : Z) (e : TSParser) :
  p <> 0 -> heap w !! p = Some (Parser e) ->
  ts_parser_delete p w = Return tt (set_heap (delete p) w).
Proof.
  intros Hp Ho. unfold ts_parser_delete. rewrite (proj2 (Z.eqb_neq p 0) Hp).
  run (apply deref_Return; eassumption). reflexivity.
Qed.

(** The destructor on a live session: the three members are released
    and the three fields are null. *)
Lemma dtor_live (w : World) this s tok e :
  live w this s tok e ->
  TSParserInternal_dtor this w
  = Return tt
      (mkWorld
         (<[this := Internal (mkTSParserInternal 0 0 0)]>
            (delete (parser s) (delete (cancellation_flag s)
               (delete (cancellation_flag_mutex s) (heap w)))))
         (pending w) (trace w)).
Proof.
  intros L. destruct (live_distinct _ _ _ _ _ L) as (D1 & D2 & D3 & D4 & D5 & D6).
  unfold TSParserInternal_dtor.
  run (eapply load_internal_live; exact L).
  destruct L.
  run (eapply delete_object_Return; eassumption).
  run (eapply delete_object_Return; [eassumption|];
       cbn; rewrite lookup_delete_ne by congruence; eassumption).
  run (eapply ts_parser_delete_Return; [eassumption|];
       cbn; rewrite !lookup_delete_ne by congruence; eassumption).
  reflexivity.
Qed.

Lemma delete_live (w : World) this s tok e :
  live w this s tok e ->
  Native_delete this w = Return tt (deleted w this s).
Proof.
  intros L. unfold Native_delete.
  run (apply req_nnp_nonnull; apply (live_this _ _ _ _ _ L)).
  run (eapply dtor_live; exact L).
  unfold release, deleted, set_heap. cbn. f_equal. f_equal.
  apply delete_insert_eq.
Qed.

Lemma deleted_lookup (w : World) this s (k : Z) :
  heap (deleted w this s) !! k
  = if decide (k = this \/ k = cancellation_flag_mutex s
               \/ k = cancellation_flag s \/ k = parser s)
    then None else heap w !! k.
Proof.
  unfold deleted. cbn. case_decide as D.
  - destruct (decide (k = this)) as [->|N1]; [apply lookup_delete_eq|].
    rewrite lookup_delete_ne by congruence.
    destruct (decide (k = parser s)) as [->|N2]; [apply lookup_delete_eq|].
    rewrite lookup_delete_ne by congruence.
    destruct (decide (k = cancellation_flag s)) as [->|N3];
      [apply lookup_delete_eq|].
    rewrite lookup_delete_ne by congruence.
    destruct (decide (k = cancellation_flag_mutex s)) as [->|N4];
      [apply lookup_delete_eq|].
    exfalso. tauto.
  - rewrite !lookup_delete_ne by (intros E; apply D; subst; tauto).
    reflexivity.
Qed.

(** X2.  [delete] on a session that has not been destroyed, whatever its
    state, releases the session object, its mutex, its slot and the
    engine's parser, and leaves every other object of the heap, the
    pending exception and the trace as they were. *)
Theorem delete_releases_the_session
    (w : World) (this : Z) (s : TSParserInternal) (tok : Z) (e : TSParser) :
  live w this s tok e ->
  exists w' : World,
    Native_delete this w = Return tt w'
    /\ heap w' !! this = None
    /\ heap w' !! cancellation_flag_mutex s = None
    /\ heap w' !! cancellation_flag s = None
    /\ heap w' !! parser s = None
    /\ (forall k : Z,
          k <> this -> k <> cancellation_flag_mutex s ->
          k <> cancellation_flag s -> k <> parser s ->
          heap w' !! k = heap w !! k)
    /\ pending w' = pending w /\ trace w' = trace w.
Proof.
  intros L. exists (deleted w this s).
  split; [eapply delete_live; exact L|].
  repeat split; try reflexivity.
  - rewrite deleted_lookup. case_decide; [reflexivity|tauto].
  - rewrite deleted_lookup. case_decide; [reflexivity|tauto].
  - rewrite deleted_lookup. case_decide; [reflexivity|tauto].
  - rewrite deleted_lookup. case_decide; [reflexivity|tauto].
  - intros k N1 N2 N3 N4. rewrite deleted_lookup.
    case_decide as D; [|reflexivity]. exfalso. tauto.
Qed.

(** X4.  [delete] during a round: the destructor does not look at the
    slot, so the storage of the installed token is not released (it stays
    allocated, with its value), while the slot that pointed to it and the
    engine's parser the round is using are released. *)
Theorem delete_in_active_round_leaks_token
    (w : World) (this : Z) (s : TSParserInternal) (tok : Z) (v : option Z) :
  parsing w this s tok v ->
  exists w' : World,
    Native_delete this w = Return tt w'
    /\ heap w' !! tok = Some (Flag v)
    /\ heap w' !! cancellation_flag s = None
    /\ heap w' !! parser s = None
    /\ heap w' !! this = None.
Proof.
  intros (Htok & L & Hv). exists (deleted w this s).
  split; [eapply delete_live; exact L|].
  destruct (token_distinct _ _ _ _ _ _ _ L Hv) as (N1 & N2 & N3 & N4).
  repeat split.
  - rewrite deleted_lookup. case_decide as D; [exfalso; tauto|exact Hv].
  - rewrite deleted_lookup. case_decide; [reflexivity|tauto].
  - rewrite deleted_lookup. case_decide; [reflexivity|tauto].
  - rewrite deleted_lookup. case_decide; [reflexivity|tauto].
Qed.




(** What [newParser] allocates: four addresses, none null, none in use,
    no two the same. *)
Lemma newParser_world (w : World) :
  fresh_allocator ->
  exists this m a p : Z,
    Native_newParser w
    = Return this
        (mkWorld
           (<[this := Internal (mkTSParserInternal m a p)]>
              (<[p := Parser (mkTSParser 0)]> (<[a := AtomicPtr 0]>
                 (<[m := Mutex]>
                    (<[this := Internal (mkTSParserInternal 0 0 0)]> (heap w))))))
           (pending w) (trace w))
    /\ (this <> 0 /\ m <> 0 /\ a <> 0 /\ p <> 0)
    /\ (m <> this /\ a <> this /\ p <> this /\ a <> m /\ p <> m /\ p <> a)
    /\ (heap w !! this = None /\ heap w !! m = None
        /\ heap w !! a = None /\ heap w !! p = None).
Proof.
  intros Hfresh.
  set (this := next_address (heap w)).
  set (h1 := <[this := Internal (mkTSParserInternal 0 0 0)]> (heap w)).
  set (m := next_address h1).
  set (h2 := <[m := Mutex]> h1).
  set (a := next_address h2).
  set (h3 := <[a := AtomicPtr 0]> h2).
  set (p := next_address h3).
  destruct (Hfresh (heap w)) as [T0 T1]. fold this in T0, T1.
  destruct (Hfresh h1) as [M0 M1]. fold m in M0, M1.
  destruct (Hfresh h2) as [A0 A1]. fold a in A0, A1.
  destruct (Hfresh h3) as [P0 P1]. fold p in P0, P1.
  assert (Nmt : m <> this).
  { intros E. subst h1. rewrite E, lookup_insert_eq in M1. discriminate. }
  assert (Nam : a <> m).
  { intros E. subst h2. rewrite E, lookup_insert_eq in A1. discriminate. }
  assert (Nat : a <> this).
  { intros E. subst h2 h1. rewrite lookup_insert_ne in A1 by congruence.
    rewrite E, lookup_insert_eq in A1. discriminate. }
  assert (Npa : p <> a).
  { intros E. subst h3. rewrite E, lookup_insert_eq in P1. discriminate. }
  assert (Npm : p <> m).
  { intros E. subst h3 h2. rewrite lookup_insert_ne in P1 by congruence.
    rewrite E, lookup_insert_eq in P1. discriminate. }
  assert (Npt : p <> this).
  { intros E. subst h3 h2 h1. rewrite !lookup_insert_ne in P1 by congruence.
    rewrite E, lookup_insert_eq in P1. discriminate. }
  exists this, m, a, p. split; [reflexivity|].
  split; [tauto|]. split; [tauto|].
  subst h3 h2 h1.
  rewrite lookup_insert_ne in M1 by congruence.
  rewrite !lookup_insert_ne in A1 by congruence.
  rewrite !lookup_insert_ne in P1 by congruence.
  tauto.
Qed.

(** X3.  [delete] undoes [newParser]: creating a session and destroying
    it at once gives back the world [newParser] was called in, heap,
    pending exception and trace; nothing the constructor allocated
    outlives the destructor. *)
Theorem newParser_then_delete_restores_world (w : World) :
  fresh_allocator ->
  exists (this : Z) (w1 : World),
    Native_newParser w = Return this w1
    /\ this <> 0
    /\ Native_delete this w1 = Return tt w.
Proof.
  intros Hfresh.
  destruct (newParser_world w Hfresh)
    as (this & m & a & p & Hnew & (T0 & M0 & A0 & P0)
        & (Nmt & Nat & Npt & Nam & Npm & Npa) & (T1 & M1 & A1 & P1)).
  eexists this, _. split; [exact Hnew|]. split; [exact T0|].
  set (s := mkTSParserInternal m a p).
  match goal with |- Native_delete this ?x = _ => set (w1 := x) end.
  assert (L : live w1 this s 0 (mkTSParser 0)).
  { subst w1. split; cbn; try assumption.
    - apply lookup_insert_eq.
    - rewrite !lookup_insert_ne by congruence. apply lookup_insert_eq.
    - rewrite !lookup_insert_ne by congruence. apply lookup_insert_eq.
    - rewrite lookup_insert_ne by congruence. apply lookup_insert_eq. }
  rewrite (delete_live w1 this s _ _ L). f_equal.
  apply world_eq; try reflexivity.
  apply map_eq. intros k. rewrite deleted_lookup. case_decide as D.
  - cbn in D. destruct D as [-> | [-> | [-> | ->]]]; congruence.
  - subst w1. cbn in *. rewrite !lookup_insert_ne by (intros E; apply D; subst; tauto).
    reflexivity.
Qed.

(** ** 4.11 A session whose destructor has run *)

Section Destroyed.

Variables (w : World) (this : Z) (s : TSParserInternal).
Hypothesis D : destroyed w this s.





End Destroyed.



Lemma ts_parser_set_cancellation_flag_null (w : World) (flag : Z) :
  ts_parser_set_cancellation_flag 0 flag w = Undefined.
Proof. reflexivity. Qed.




End Lifecycle.

(** ** 4.12 Sequences of calls, and a second session *)

Section Sequences.

Context `{Allocator} `{Engine}.

Lemma slot_unique (w : World) this s t1 e1 t2 e2 :
  live w this s t1 e1 -> live w this s t2 e2 -> t1 = t2 /\ e1 = e2.
Proof.
  intros L1 L2.
  pose proof (live_slot _ _ _ _ _ L1) as A1.
  pose proof (live_slot _ _ _ _ _ L2) as A2.
  pose proof (live_parser _ _ _ _ _ L1) as B1.
  pose proof (live_parser _ _ _ _ _ L2) as B2.
  split; congruence.
Qed.

Lemma idle_not_parsing (w : World) this s tok v :
  idle w this s -> parsing w this s tok v -> False.
Proof.
  intros L (Htok & L' & _). destruct (slot_unique _ _ _ _ _ _ _ L L'). congruence.
Qed.

(** What calls on a session leave alone: every object that is neither
    its slot, nor its engine's parser, nor the token installed in [w]. *)
Definition untouched (w w' : World) (this : Z) (s : TSParserInternal) : Prop :=
  forall (k : Z) (o : object),
    heap w !! k = Some o ->
    k <> cancellation_flag s -> k <> parser s ->
    (forall tok v, parsing w this s tok v -> k <> tok) ->
    heap w' !! k = Some o.

Lemma untouched_same_heap (w w' : World) this s :
  heap w' = heap w -> untouched w w' this s.
Proof. intros E k o Hk _ _ _. rewrite E. exact Hk. Qed.

Lemma untouched_begun (w : World) this s (a : Z) :
  heap w !! a = None -> untouched w (begun w this s a) this s.
Proof.
  intros Ha k o Hk N1 N2 _. cbn.
  assert (k <> a) by (intros E; rewrite E in *; congruence).
  rewrite !lookup_insert_ne by congruence. exact Hk.
Qed.

Lemma untouched_ended_idle (w : World) this s :
  untouched w (ended w this s 0) this s.
Proof.
  intros k o Hk N1 N2 _. cbn.
  rewrite !lookup_insert_ne by congruence. exact Hk.
Qed.

Lemma untouched_ended_parsing (w : World) this s tok v :
  parsing w this s tok v -> untouched w (ended w this s tok) this s.
Proof.
  intros P k o Hk N1 N2 N3. specialize (N3 tok v P).
  destruct P as (Htok & _). cbn.
  rewrite !lookup_insert_ne by congruence.
  rewrite (proj2 (Z.eqb_neq tok 0) Htok).
  rewrite lookup_delete_ne by congruence. exact Hk.
Qed.

(** One call on a well-formed session: it returns, the session is
    well-formed after it, it leaves alone whatever is not the slot, the
    engine's parser or the installed token, and the token installed
    after it is the one installed before it or a newly allocated one. *)
Lemma run_call_step (w : World) this s (c : call) :
  fresh_allocator -> well_formed w this s -> buffers_valid w [c] ->
  exists w' : World,
    run_call this c w = Return tt w'
    /\ well_formed w' this s
    /\ untouched w w' this s
    /\ (forall tok' v', parsing w' this s tok' v' ->
          (exists v, parsing w this s tok' v) \/ heap w !! tok' = None).
Proof.
  intros Hfresh W B. destruct W as [L|(tok & v & P)].
  - (* IDLE *)
    assert (Same : forall w' : World,
              heap w' = heap w ->
              well_formed w' this s
              /\ untouched w w' this s
              /\ (forall tok' v', parsing w' this s tok' v' ->
                    (exists v, parsing w this s tok' v) \/ heap w !! tok' = None)).
    { intros w' E. split; [left; apply (live_heap w); assumption|].
      split; [apply untouched_same_heap, E|].
      intros tok' v' P'. exfalso.
      apply (idle_not_parsing w' this s tok' v'); [|exact P'].
      apply (live_heap w); assumption. }
    destruct c as [| | |tree_pointer str_pointer]; cbn [run_call].
    + destruct (begin_round_idle w this s Hfresh L) as (Hfree & Hbegin & P).
      eexists. split; [run (exact Hbegin); reflexivity|].
      split; [right; do 2 eexists; exact P|].
      split; [apply untouched_begun, Hfree|].
      intros tok' v' (_ & L' & _). right.
      destruct P as (_ & L1 & _).
      destruct (slot_unique _ _ _ _ _ _ _ L1 L') as [<- _]. exact Hfree.
    + destruct (end_round_live w this s 0 _ L) as [Hend Hidle];
        [intros N; congruence|].
      eexists. split; [exact Hend|].
      split; [left; exact Hidle|].
      split; [apply untouched_ended_idle|].
      intros tok' v' P'. exfalso.
      apply (idle_not_parsing _ this s tok' v' Hidle P').
    + eexists. split;
        [run (eapply requestCancellation_idle; exact L); reflexivity|].
      apply Same. reflexivity.
    + destruct (B tree_pointer str_pointer (or_introl eq_refl)) as (Hstr & u & Hu).
      pose proof (parse_idle w this s tree_pointer str_pointer u Hfresh L Hstr Hu)
        as Hparse. cbv zeta in Hparse.
      eexists. split; [run (exact Hparse); reflexivity|].
      apply Same. reflexivity.
  - (* PARSING *)
    pose proof P as (Htok & L & Hv).
    destruct c as [| | |tree_pointer str_pointer]; cbn [run_call].
    + eexists. split;
        [run (eapply begin_round_guard; [exact L|exact Htok]); reflexivity|].
      split; [right; exists tok, v; split; [exact Htok|];
              split; [apply (live_heap w); [reflexivity|exact L]|exact Hv]|].
      split; [apply untouched_same_heap; reflexivity|].
      intros tok' v' (_ & L' & _). left. exists v.
      pose proof (live_heap (set_pending (InvalidState already_parsing) w)
                    w _ _ _ _ eq_refl L') as L''.
      destruct (slot_unique _ _ _ _ _ _ _ L L'') as [<- _]. exact P.
    + destruct (end_round_parsing w this s tok v P) as (Hend & Hidle & _ & _).
      eexists. split; [exact Hend|]. split; [left; exact Hidle|].
      split; [eapply untouched_ended_parsing; exact P|].
      intros tok' v' P'. exfalso.
      apply (idle_not_parsing _ this s tok' v' Hidle P').
    + eexists. split;
        [run (eapply requestCancellation_token; eassumption); reflexivity|].
      pose proof (parsing_write_flag w this s tok v 1 P) as P1.
      split; [right; do 2 eexists; exact P1|].
      split.
      * intros k o Hk N1 N2 N3. specialize (N3 tok v P). cbn.
        rewrite lookup_insert_ne by congruence. exact Hk.
      * intros tok' v' (_ & L' & _). left. exists v.
        destruct P1 as (_ & L1 & _).
        destruct (slot_unique _ _ _ _ _ _ _ L1 L') as [<- _]. exact P.
    + destruct (B tree_pointer str_pointer (or_introl eq_refl)) as (Hstr & u & Hu).
      pose proof (parse_parsing w this s tok v tree_pointer str_pointer u P Hstr Hu)
        as Hparse.
      destruct (end_round_parsing w this s tok v P) as (_ & Hidle & _ & _).
      assert (E : heap (ended w this s tok)
                  = <[parser s := Parser (mkTSParser 0)]>
                      (<[cancellation_flag s := AtomicPtr 0]>
                         (delete tok (heap w)))).
      { unfold ended. cbn. rewrite (proj2 (Z.eqb_neq tok 0) Htok). reflexivity. }
      eexists. split; [run (exact Hparse); reflexivity|].
      assert (Hidle' : forall p t,
                idle (mkWorld (heap (ended w this s tok)) p t) this s)
        by (intros; apply (live_heap (ended w this s tok));
            [reflexivity|exact Hidle]).
      rewrite <- E.
      split; [left; apply Hidle'|].
      split.
      * intros k o Hk N1 N2 N3.
        apply (untouched_ended_parsing w this s tok v P k o Hk N1 N2 N3).
      * intros tok' v' P'. exfalso.
        apply (idle_not_parsing _ this s tok' v' (Hidle' _ _) P').
Qed.

(** A text buffer is none of the objects a call may touch. *)
Lemma buffer_untouched (w w' : World) this s (k : Z) (u : TextBuffer.UTF16String) :
  well_formed w this s -> untouched w w' this s ->
  heap w !! k = Some (Str u) -> heap w' !! k = Some (Str u).
Proof.
  intros W U Hk. apply U; [exact Hk| | |].
  - destruct W as [L|(tok & v & (_ & L & _))]; destruct L;
      intros E; rewrite E in *; congruence.
  - destruct W as [L|(tok & v & (_ & L & _))]; destruct L;
      intros E; rewrite E in *; congruence.
  - intros tok v (_ & _ & Hv) E. rewrite E in *. congruence.
Qed.

(** Any sequence of calls. *)
Lemma run_calls_frame (w : World) this s (cs : list call) :
  fresh_allocator -> well_formed w this s -> buffers_valid w cs ->
  exists w' : World,
    run_calls this cs w = Return tt w'
    /\ well_formed w' this s
    /\ untouched w w' this s.
Proof.
  intros Hfresh. revert w. induction cs as [|c cs IH]; intros w W B.
  - exists w. split; [reflexivity|]. split; [exact W|].
    apply untouched_same_heap. reflexivity.
  - destruct (run_call_step w this s c Hfresh W) as (w1 & Hc & W1 & U1 & T1).
    { intros t sp [E|[]]. apply (B t sp). left. exact E. }
    destruct (IH w1 W1) as (w' & Hcs & W' & U').
    { intros t sp Hin. destruct (B t sp (or_intror Hin)) as (Hsp & u & Hu).
      split; [exact Hsp|]. exists u.
      exact (buffer_untouched w w1 this s sp u W U1 Hu). }
    exists w'. split; [cbn [run_calls]; run (exact Hc); exact Hcs|].
    split; [exact W'|].
    intros k o Hk N1 N2 N3.
    assert (Hk1 : heap w1 !! k = Some o) by (apply U1; assumption).
    apply U'; try assumption.
    intros tok' v' P' E. destruct (T1 tok' v' P') as [(v & P)|Hnone].
    + apply (N3 tok' v P E).
    + rewrite E in *. congruence.
Qed.


(** X10.  Sessions do not interfere: whatever sequence of calls is made
    on one session, a second session with its own slot and its own
    engine parser (and, if it is in a round, its own token) stays
    exactly as it was: same members, same token in its slot, same flag
    pointer on its engine, same flag value. *)
Theorem calls_leave_other_session_alone
    (w : World) (thisA : Z) (sA : TSParserInternal) (cs : list call)
    (thisB : Z) (sB : TSParserInternal) (tokB : Z) (eB : TSParser)
    (vB : option Z) :
  fresh_allocator -> well_formed w thisA sA -> buffers_valid w cs ->
  live w thisB sB tokB eB ->
  (tokB <> 0 -> heap w !! tokB = Some (Flag vB)) ->
  cancellation_flag sA <> cancellation_flag sB ->
  parser sA <> parser sB ->
  (forall tokA vA, parsing w thisA sA tokA vA -> tokA <> tokB) ->
  exists w' : World,
    run_calls thisA cs w = Return tt w'
    /\ live w' thisB sB tokB eB
    /\ (tokB <> 0 -> heap w' !! tokB = Some (Flag vB)).
Proof.
  intros Hfresh W B LB FB Ncf Nps Ntok.
  destruct (run_calls_frame w thisA sA cs Hfresh W B) as (w' & Hcs & _ & U).
  exists w'. split; [exact Hcs|].
  assert (LA : exists tokA eA, live w thisA sA tokA eA).
  { destruct W as [L|(tok & v & (_ & L & _))]; eauto. }
  destruct LA as (tokA & eA & LA).
  assert (Keep : forall k o, heap w !! k = Some o ->
            k <> cancellation_flag sA -> k <> parser sA ->
            (forall v, o <> Flag v) -> heap w' !! k = Some o).
  { intros k o Hk N1 N2 N3. apply U; try assumption.
    intros tok v (_ & _ & Hv) E. rewrite E in *.
    apply (N3 v). congruence. }
  destruct LB. destruct LA. split.
  - split; try assumption;
      (apply Keep;
       [ assumption
       | intros E; first [congruence | rewrite E in *; congruence]
       | intros E; first [congruence | rewrite E in *; congruence]
       | discriminate ]).
  - intros NB. specialize (FB NB). apply U; try assumption.
    + intros E; rewrite E in *; congruence.
    + intros E; rewrite E in *; congruence.
    + intros tok v P E. apply (Ntok tok v P). congruence.
Qed.


End Sequences.

(** ** 4.13 The theorems of 4.10 to 4.12 at concrete worlds *)

Section LifecycleWitnesses.

#[local] Existing Instance bump_allocator.
#[local] Existing Instance polling_engine.

Lemma destroyed_world_destroyed :
  destroyed destroyed_world 1 (mkTSParserInternal 0 0 0).
Proof.
  split; [discriminate|]. split; [reflexivity|]. left. reflexivity.
Qed.

Lemma two_sessions_world_first :
  parsing two_sessions_world 1 session1 6 (Some 0).
Proof.
  split; [discriminate|].
  split; [split; first [discriminate | reflexivity] | reflexivity].
Qed.

Lemma two_sessions_world_second :
  live two_sessions_world 7 session7 11 (mkTSParser 11).
Proof. split; first [discriminate | reflexivity]. Qed.

Lemma some_calls_valid (w : World) :
  heap w !! 5 = Some (Str TextBuffer.abc) -> buffers_valid w some_calls.
Proof.
  intros E t sp Hin. cbn in Hin.
  repeat (destruct Hin as [Hin|Hin];
          [first [ discriminate
                 | injection Hin as <- <-;
                   split; [discriminate|exists TextBuffer.abc; exact E] ]|]).
  destruct Hin.
Qed.

Lemma newParser_idle_witness :
  exists (this : Z) (s : TSParserInternal) (w' : World),
    Native_newParser empty_world = Return this w'
    /\ idle w' this s
    /\ heap empty_world !! this = None
    /\ (forall (k : Z) (o : object),
          heap empty_world !! k = Some o -> heap w' !! k = Some o)
    /\ pending w' = pending empty_world /\ trace w' = trace empty_world.
Proof. apply (newParser_idle empty_world). exact bump_allocator_fresh. Defined.

Lemma delete_releases_the_session_witness :
  exists w' : World,
    Native_delete 1 idle_world = Return tt w'
    /\ heap w' !! 1 = None
    /\ heap w' !! cancellation_flag_mutex session1 = None
    /\ heap w' !! cancellation_flag session1 = None
    /\ heap w' !! parser session1 = None
    /\ (forall k : Z,
          k <> 1 -> k <> cancellation_flag_mutex session1 ->
          k <> cancellation_flag session1 -> k <> parser session1 ->
          heap w' !! k = heap idle_world !! k)
    /\ pending w' = pending idle_world /\ trace w' = trace idle_world.
Proof.
  apply (delete_releases_the_session idle_world 1 session1 0 (mkTSParser 0)).
  split; first [discriminate | reflexivity].
Defined.

Lemma newParser_then_delete_restores_world_witness :
  exists (this : Z) (w1 : World),
    Native_newParser idle_world = Return this w1
    /\ this <> 0
    /\ Native_delete this w1 = Return tt idle_world.
Proof.
  apply (newParser_then_delete_restores_world idle_world).
  exact bump_allocator_fresh.
Defined.

Lemma delete_in_active_round_leaks_token_witness :
  exists w' : World,
    Native_delete 1 parsing_world = Return tt w'
    /\ heap w' !! 6 = Some (Flag (Some 0))
    /\ heap w' !! cancellation_flag session1 = None
    /\ heap w' !! parser session1 = None
    /\ heap w' !! 1 = None.
Proof.
  apply (delete_in_active_round_leaks_token parsing_world 1 session1 6 (Some 0)).
  split; [discriminate|].
  split; [split; first [discriminate | reflexivity] | reflexivity].
Defined.






Lemma calls_leave_other_session_alone_witness :
  exists w' : World,
    run_calls 1 some_calls two_sessions_world = Return tt w'
    /\ live w' 7 session7 11 (mkTSParser 11)
    /\ (11 <> 0 -> heap w' !! 11 = Some (Flag (Some 1))).
Proof.
  apply (calls_leave_other_session_alone
           two_sessions_world 1 session1 some_calls 7 session7 11
           (mkTSParser 11) (Some 1)).
  - exact bump_allocator_fresh.
  - right. exists 6, (Some 0). split; [discriminate|].
    split; [split; first [discriminate | reflexivity] | reflexivity].
  - apply some_calls_valid. reflexivity.
  - split; first [discriminate | reflexivity].
  - intros _. reflexivity.
  - discriminate.
  - discriminate.
  - intros tokA vA (_ & LA & _) E.
    pose proof (live_slot _ _ _ _ _ LA) as Hslot.
    rewrite E in Hslot. vm_compute in Hslot. discriminate.
Defined.

(** The calls of [some_calls] on [two_sessions_world], evaluated: the
    first session ends [IDLE]; the second session's token at address 11
    still holds 1. *)
Example some_calls_on_two_sessions :
  exists w' : World,
    run_calls 1 some_calls two_sessions_world = Return tt w'
    /\ idle w' 1 session1
    /\ parsing w' 7 session7 11 (Some 1).
Proof.
  eexists. split; [vm_compute; reflexivity|].
  split; [split; first [discriminate | reflexivity]|].
  split; [discriminate|].
  split; [split; first [discriminate | reflexivity] | reflexivity].
Qed.

End LifecycleWitnesses.

End SessionFacts.
